(** * Zapid: short random identifiers and their collision-risk report

    A shallow embedding of [src/zapid/crypto.ts] (secure random source and
    rejection sampler) and [src/zapid/generator.ts] (validation, ID
    generation, risk model, configuration), followed by the properties of
    the specification that concern them.

    Conventions of the embedding.
    - A JavaScript number is a finite rational, [NaN] or an infinity; the
      doubles are among them.  Integer arithmetic on the values that occur
      here is exact in doubles, so it is written on [Z].
    - The 32-bit operators [<<], [|] and [&] are written out with their
      [ToInt32] conversions and the shift count taken modulo 32.
    - The platform's random facility is an oracle held in the [world]: a
      tape of bytes, and a schedule of the calls on which it throws; what
      it throws is an [Error] object, of which the code reads the message.
    - The sampling loop [while (true)] takes a bound on its iterations
      ([fuel]); running out of it is the outcome [OutOfFuel], which no
      JavaScript run has. *)

From Stdlib Require Import ZArith QArith Qround Qreals String Ascii List Lia Lra Reals DecimalString.
From stdpp Require Import gmap strings list.
Import ListNotations.
Local Open Scope Z_scope.

(** ** The fragment of JavaScript the code relies on *)

Module JS.

Inductive number : Type :=
| Finite (q : Q)
| NaN
| Infinity
| NegInfinity.

Inductive value : Type :=
| VUndefined
| VNull
| VBoolean (b : bool)
| VNumber (n : number)
| VString (s : string)
| VObject.

Definition of_Z (z : Z) : value := VNumber (Finite (inject_Z z)).

(** [Number.isInteger(v)], together with the integer when it holds: the
    argument is of type number, finite, and has no fractional part. *)
Definition as_integer (v : value) : option Z :=
  match v with
  | VNumber (Finite q) =>
      if Qnum q mod Z.pos (Qden q) =? 0 then Some (Qnum q / Z.pos (Qden q)) else None
  | _ => None
  end.

Definition Number_isInteger (v : value) : bool :=
  match as_integer v with Some _ => true | None => false end.

(** The integer a value is, once [Number.isInteger] has passed on it. *)
Definition integer_value (v : value) : Z :=
  match as_integer v with Some n => n | None => 0 end.

(** [Number.isInteger(v) && v >= 1] *)
Definition positive_integer (v : value) : bool :=
  match as_integer v with Some n => 1 <=? n | None => false end.

(** A parameter with a default value takes it when the argument is absent
    or [undefined]. *)
Definition default_param (arg dflt : value) : value :=
  match arg with VUndefined => dflt | _ => arg end.

(** [ToInt32]: reduction modulo 2^32 into the signed range. *)
Definition ToInt32 (x : Z) : Z := (x + 2 ^ 31) mod 2 ^ 32 - 2 ^ 31.

(** [a << b]: the count is [b] modulo 32, the result a signed 32-bit integer. *)
Definition shl (a b : Z) : Z := ToInt32 (Z.shiftl (ToInt32 a) (b mod 32)).

(** [a | b] and [a & b] on the [ToInt32] of their operands. *)
Definition bor (a b : Z) : Z := Z.lor (ToInt32 a) (ToInt32 b).
Definition band (a b : Z) : Z := Z.land (ToInt32 a) (ToInt32 b).

(** [Math.ceil(Math.log2(x))] for an integer [x >= 1], as the exact
    ceiling of the binary logarithm: [Math.log2] is exact on the powers
    of two, and up to 2^32 no other integer has a logarithm within
    rounding distance of an integer. *)
Definition ceil_log2 (x : Z) : Z := Z.log2_up x.

(** [Math.ceil(x / 8)] for an integer [x >= 0]. *)
Definition ceil_div8 (x : Z) : Z := (x + 7) / 8.

(** Decimal digits of a natural number, as a template literal prints it. *)
Definition digits (n : Z) : string := NilZero.string_of_uint (N.to_uint (Z.to_N n)).

(** [s[i]] inside a string concatenation: the character, or the text
    [undefined] when the index is out of range. *)
Definition char_at (s : string) (i : Z) : string :=
  if i <? 0 then "undefined"
  else match String.get (Z.to_nat i) s with
       | Some c => String c EmptyString
       | None => "undefined"
       end.

End JS.

(** ** Errors (src/types/index.ts, src/zapid/crypto.ts) *)

Inductive error : Type :=
| ZapidValidationError (message : string)
| CryptoGenerationError (message : string).

Definition message (e : error) : string :=
  match e with
  | ZapidValidationError m => m
  | CryptoGenerationError m => m
  end.

Definition is_crypto_error (e : error) : bool :=
  match e with CryptoGenerationError _ => true | _ => false end.

(** ** The host platform *)

Module Platform.

(** [Browser]: [window.crypto] is defined.  [Node]: it is not, and
    [require('crypto')] succeeds.  [Bare]: neither. *)
Inductive environment : Type := Browser | Node | Bare.

(** The random facility of the platform: [tape] lists the bytes it hands
    out, in order; [fault k = Some m] makes its [k]-th call throw an error
    of message [m].  [calls] counts the calls made so far, [cursor] the
    bytes handed out so far. *)
Record world : Type := World {
  env : environment;
  tape : nat -> Byte.byte;
  fault : nat -> option string;
  calls : nat;
  cursor : nat
}.

Definition byte_value (b : Byte.byte) : Z := Z.of_N (Byte.to_N b).

Definition read (w : world) (n : nat) : list Byte.byte :=
  List.map (fun i => tape w (cursor w + i)%nat) (List.seq 0 n).

(** One call of [getRandomValues] (browser) or [randomBytes] (Node) for
    [n] bytes. *)
Definition draw (n : nat) (w : world) : (list Byte.byte + string) * world :=
  match fault w (calls w) with
  | Some m => (inr m, World (env w) (tape w) (fault w) (S (calls w)) (cursor w))
  | None => (inl (read w n),
             World (env w) (tape w) (fault w) (S (calls w)) (cursor w + n)%nat)
  end.

End Platform.

Export Platform.

(** ** Outcomes of a call *)

Inductive result (A : Type) : Type :=
| Return (a : A) (w : world)
| Throw (e : error) (w : world)
| OutOfFuel.

Arguments Return {A} a w.
Arguments Throw {A} e w.
Arguments OutOfFuel {A}.

Definition M (A : Type) : Type := world -> result A.

Definition ret {A} (a : A) : M A := fun w => Return a w.
Definition throw {A} (e : error) : M A := fun w => Throw e w.
Definition bind {A B} (m : M A) (k : A -> M B) : M B :=
  fun w =>
    match m w with
    | Return a w' => k a w'
    | Throw e w' => Throw e w'
    | OutOfFuel => OutOfFuel
    end.

Notation "'let*' x ':=' m 'in' k" := (bind m (fun x => k))
  (at level 10, x name, m at level 100, k at level 200).

(** ** src/zapid/crypto.ts *)

Module Crypto.

Import JS.

Definition isBrowser (w : world) : bool :=
  match env w with Browser => true | _ => false end.

Inductive implementation : Type := WebCrypto | NodeCrypto.

Definition getCrypto (w : world) : implementation + error :=
  if isBrowser w then inl WebCrypto
  else match env w with
       | Bare => inr (CryptoGenerationError
           "No secure crypto implementation available. Ensure you are in a supported environment.")
       | _ => inl NodeCrypto
       end.

(** The parameter check is [!Number.isInteger(length) || length < 1];
    everything thrown after it, also by [getCrypto], is caught and
    wrapped. *)
Definition getRandomBytes (length : value) : M (list Byte.byte) :=
  fun w =>
    match as_integer length with
    | None => Throw (CryptoGenerationError "Random bytes length must be a positive integer") w
    | Some n =>
        if n <? 1
        then Throw (CryptoGenerationError "Random bytes length must be a positive integer") w
        else
          match getCrypto w with
          | inr e =>
              Throw (CryptoGenerationError
                       ("Failed to generate random bytes: " +:+ message e)) w
          | inl _ =>
              match draw (Z.to_nat n) w with
              | (inl bytes, w') => Return bytes w'
              | (inr m, w') =>
                  Throw (CryptoGenerationError
                           ("Failed to generate random bytes: " +:+ m)) w'
              end
          end
    end.

(** [for (i = 0; i < bytesNeeded; i++) num = (num << 8) | bytes[i]] *)
Definition combine (bytes : list Byte.byte) : Z :=
  fold_left (fun num b => bor (shl num 8) (byte_value b)) bytes 0.

(** The body of [while (true)], at most [fuel] times. *)
Fixpoint sample (fuel : nat) (max bytesNeeded mask : Z) : M Z :=
  match fuel with
  | O => fun _ => OutOfFuel
  | S fuel' =>
      let* bytes := getRandomBytes (of_Z bytesNeeded) in
      let num := band (combine bytes) mask in
      if num <? max then ret num
      else sample fuel' max bytesNeeded mask
  end.

Definition getRandomInt (fuel : nat) (max : value) : M Z :=
  match as_integer max with
  | None => throw (CryptoGenerationError "Maximum value must be a positive integer")
  | Some max =>
      if max <? 1
      then throw (CryptoGenerationError "Maximum value must be a positive integer")
      else if max =? 1 then ret 0
      else
        let bitsNeeded := ceil_log2 max in
        let bytesNeeded := ceil_div8 bitsNeeded in
        let mask := shl 1 bitsNeeded - 1 in
        sample fuel max bytesNeeded mask
  end.

End Crypto.

(** ** src/zapid/generator.ts *)

Module Generator.

Import JS Crypto.

Record constants : Type := {
  DEFAULT_LENGTH : Z;
  MIN_LENGTH : Z;
  MAX_LENGTH : Z;
  CHARSET : string
}.

Definition CONSTANTS : constants := {|
  DEFAULT_LENGTH := 7;
  MIN_LENGTH := 7;
  MAX_LENGTH := 32;
  CHARSET := "abcdefghijklmnopqrstuvwxyzABCDEFGHIJKLMNOPQRSTUVWXYZ0123456789"
|}.

Module COLLISION_THRESHOLDS.
Definition safe : Q := 1 # 1000.
Definition moderate : Q := 1 # 10.
End COLLISION_THRESHOLDS.

Inductive SafetyLevel : Type := safe | moderate | high_risk.

(** The string literal each level is in the source. *)
Definition SafetyLevel_text (s : SafetyLevel) : string :=
  match s with
  | safe => "safe"
  | moderate => "moderate"
  | high_risk => "high-risk"
  end.

Record ZapidResult : Type := {
  id : string;
  safety : SafetyLevel;
  collisionProbability : string;
  recommendation : string
}.

(** [s] with zeros in front, up to [f] characters. *)
Definition pad_zeros (f : nat) (s : string) : string :=
  String.concat "" (List.repeat "0"%string (f - String.length s)) +:+ s.

(** [x.toFixed(f)] for [|x| < 10^21]: the nearest multiple of 10^-f, the
    larger one on a tie, printed with exactly [f] fractional digits. *)
Definition toFixed (f : nat) (x : Q) : string :=
  let neg := negb (Qle_bool 0 x) in
  let a := if neg then Qopp x else x in
  let n := Qfloor (Qplus (Qmult a (inject_Z (10 ^ Z.of_nat f))) (1 # 2)) in
  let whole := n / 10 ^ Z.of_nat f in
  let frac := n mod 10 ^ Z.of_nat f in
  (if neg then "-" else "") +:+ digits whole +:+
  (match f with O => "" | _ => "." +:+ pad_zeros f (digits frac) end).

(** [x.toExponential(f)] for an integer [x > 0]: [f + 1] significant
    digits, the larger candidate on a tie, and the decimal exponent. *)
Definition toExponential (f : nat) (x : Z) : string :=
  let e := Z.of_nat (String.length (digits x)) - 1 in
  let scaled := Qdiv (inject_Z x) (Qpower (inject_Z 10) (e - Z.of_nat f)) in
  let n := Qfloor (Qplus scaled (1 # 2)) in
  let '(n, e) := if n <? 10 ^ (Z.of_nat f + 1) then (n, e) else (n / 10, e + 1) in
  let lead := n / 10 ^ Z.of_nat f in
  let rest := n mod 10 ^ Z.of_nat f in
  digits lead +:+
  (match f with O => "" | _ => "." +:+ pad_zeros f (digits rest) end) +:+
  "e+" +:+ digits e.

Definition SAFETY_RECOMMENDATIONS (s : SafetyLevel) (combinations : Z) : string :=
  match s with
  | safe =>
      "Safe for up to 100k IDs. Total possible combinations: " +:+
      toExponential 2 combinations
  | moderate =>
      "Moderate collision risk. Consider increasing length for large-scale use."
  | high_risk =>
      "High collision risk. Increase length or reduce number of IDs."
  end.

Definition validateLength (length : value) : M unit :=
  match as_integer length with
  | None => throw (ZapidValidationError "ID length must be an integer")
  | Some n =>
      if n <? MIN_LENGTH CONSTANTS then
        throw (ZapidValidationError
                 ("ID length must be at least " +:+ digits (MIN_LENGTH CONSTANTS) +:+
                  " characters"))
      else if n >? MAX_LENGTH CONSTANTS then
        throw (ZapidValidationError
                 ("ID length cannot exceed " +:+ digits (MAX_LENGTH CONSTANTS) +:+
                  " characters"))
      else ret tt
  end.

Definition charsetLength : Z := Z.of_nat (String.length (CHARSET CONSTANTS)).

(** Membership of a character in the charset. *)
Definition in_charset (c : ascii) : Prop :=
  List.In c (list_ascii_of_string (CHARSET CONSTANTS)).

Section RiskModel.

(** [Math.exp] of the platform, a function from doubles to doubles. *)
Variable Math_exp : Q -> Q.

(** [length] is the validated length, an integer. *)
Definition calculateCollisionProbability (length : Z) (numIds : Q) : Q :=
  let space := inject_Z (charsetLength ^ length) in
  let exponent := Qdiv (Qmult (Qopp numIds) (Qminus numIds 1)) (Qmult 2 space) in
  Qminus 1 (Math_exp exponent).

Definition getSafetyLevel (probability : Q) : SafetyLevel :=
  if Qle_bool COLLISION_THRESHOLDS.moderate probability then high_risk
  else if Qle_bool COLLISION_THRESHOLDS.safe probability then moderate
  else safe.

Definition getRecommendation (length : Z) (s : SafetyLevel) : string :=
  let combinations := charsetLength ^ length in
  SAFETY_RECOMMENDATIONS s combinations.

(** The body of [for (let i = 0; i < length; i++)], [n] times. *)
Fixpoint draw_chars (fuel : nat) (n : nat) (id : string) : M string :=
  match n with
  | O => ret id
  | S n' =>
      let* randomIndex := getRandomInt fuel (of_Z charsetLength) in
      draw_chars fuel n' (id +:+ char_at (CHARSET CONSTANTS) randomIndex)
  end.

Definition generate (fuel : nat) (length : value) : M string :=
  let length := default_param length (of_Z (DEFAULT_LENGTH CONSTANTS)) in
  let* _ := validateLength length in
  draw_chars fuel (Z.to_nat (integer_value length)) "".

Definition generateWithInfo (fuel : nat) (length : value) : M ZapidResult :=
  let length := default_param length (of_Z (DEFAULT_LENGTH CONSTANTS)) in
  let* _ := validateLength length in
  let* id := generate fuel length in
  let probability := calculateCollisionProbability (integer_value length) (inject_Z 100000) in
  let safety := getSafetyLevel probability in
  ret {| id := id;
         safety := safety;
         collisionProbability := toFixed 3 (Qmult probability (inject_Z 100)) +:+ "%";
         recommendation := getRecommendation (integer_value length) safety |}.

End RiskModel.

Definition getCharset : string := CHARSET CONSTANTS.

(** What the risk model asks of [Math.exp] at the argument [x <= 0] it
    is called on: to lie, up to [exp_tolerance], between [1 + x] and
    [1 / (1 - x)], as the exponential does. *)
Definition exp_tolerance : Q := 1 # 1000000000.

Definition exp_accurate_at (Math_exp : Q -> Q) (x : Q) : Prop :=
  Qle (Qminus (Qplus 1 x) exp_tolerance) (Math_exp x) /\
  Qle (Math_exp x) (Qplus (Qinv (Qminus 1 x)) exp_tolerance).

(** The argument of [Math.exp] in [calculateCollisionProbability(length)]. *)
Definition exponent_of (length : Z) : Q :=
  Qdiv (Qmult (Qopp (inject_Z 100000)) (Qminus (inject_Z 100000) 1))
       (Qmult 2 (inject_Z (charsetLength ^ length))).

End Generator.

(** ** The sampler as the specification words it

    Section 4.2 of the specification, read in mathematical integers: the
    mask is [2^bitsNeeded - 1], the bytes are packed into the unsigned
    big-endian integer they spell. *)

Module SpecSampler.

Import JS Crypto.

Definition bitsNeeded (max : Z) : Z := Z.log2_up max.
Definition bytesNeeded (max : Z) : Z := (bitsNeeded max + 7) / 8.
Definition mask (max : Z) : Z := Z.shiftl 1 (bitsNeeded max) - 1.

Definition pack_big_endian (bytes : list Byte.byte) : Z :=
  fold_left (fun acc b => acc * 256 + byte_value b) bytes 0.

Fixpoint redraw (fuel : nat) (max : Z) : M Z :=
  match fuel with
  | O => fun _ => OutOfFuel
  | S fuel' =>
      let* bytes := getRandomBytes (of_Z (bytesNeeded max)) in
      let v := Z.land (pack_big_endian bytes) (mask max) in
      if v <? max then ret v else redraw fuel' max
  end.

Definition getRandomInt (fuel : nat) (max : Z) : M Z :=
  if max =? 1 then ret 0 else redraw fuel max.

End SpecSampler.

(** ** The configuration object and its snapshots

    [CONSTANTS] is an object of the module, never handed out; [getConfig]
    allocates a frozen copy on each call and hands out its address.  The
    heap is the list of objects allocated so far, an address is an index. *)

Module Config.

Import JS Generator.

Record object : Type := Obj {
  props : gmap string value;
  frozen : bool
}.

Definition props_of (c : constants) : gmap string value :=
  <["DEFAULT_LENGTH" := of_Z (DEFAULT_LENGTH c)]>
  (<["MIN_LENGTH" := of_Z (MIN_LENGTH c)]>
  (<["MAX_LENGTH" := of_Z (MAX_LENGTH c)]>
  ({["CHARSET" := VString (CHARSET c)]}))).

(** Address of the module's [CONSTANTS]. *)
Definition CONSTANTS_ref : nat := 0.

Definition init : list object := [Obj (props_of CONSTANTS) false].

(** [{ ...o }]: a new object with the own properties of [o]. *)
Definition spread (h : list object) (r : nat) : gmap string value :=
  match h !! r with
  | Some o => props o
  | None => ∅
  end.

(** [Object.freeze({ ...CONSTANTS })] *)
Definition getConfig (h : list object) : nat * list object :=
  (length h, h ++ [Obj (spread h CONSTANTS_ref) true]).

(** [CONSTANTS.CHARSET] *)
Definition getCharset (h : list object) : option value :=
  match h !! CONSTANTS_ref with
  | Some o => props o !! "CHARSET"
  | None => None
  end.

(** What a caller may try on an object it holds: [o[k] = v],
    [Object.defineProperty(o, k, {value: v})], [delete o[k]]. *)
Inductive mutation : Type :=
| Assign (k : string) (v : value)
| DefineProperty (k : string) (v : value)
| Delete (k : string).

Inductive mode : Type := Strict | Sloppy.

Definition apply_mutation (m : mutation) (p : gmap string value) : gmap string value :=
  match m with
  | Assign k v => <[k := v]> p
  | DefineProperty k v => <[k := v]> p
  | Delete k => delete k p
  end.

(** How an attempt ends: the object was changed, nothing happened, or a
    [TypeError] was thrown. *)
Inductive outcome : Type := Done | Ignored | TypeError.

(** [SameValue] on the values of the model (which has one zero); two
    objects are the same only when they are one object, and an object the
    caller passes is not one held in the configuration. *)
Definition same_value (a b : value) : bool :=
  match a, b with
  | VUndefined, VUndefined => true
  | VNull, VNull => true
  | VBoolean x, VBoolean y => Bool.eqb x y
  | VNumber (Finite x), VNumber (Finite y) => Qeq_bool x y
  | VNumber NaN, VNumber NaN => true
  | VNumber Infinity, VNumber Infinity => true
  | VNumber NegInfinity, VNumber NegInfinity => true
  | VString x, VString y => String.eqb x y
  | _, _ => false
  end.

(** On a frozen object an attempt that would change it is rejected: with
    a [TypeError] in strict mode and for [defineProperty], in silence
    otherwise.  Deleting a property that is not there, or defining one
    with the value it has, changes nothing and throws nothing. *)
Definition rejected (md : mode) : outcome :=
  match md with Strict => TypeError | Sloppy => Ignored end.

Definition rejection (md : mode) (m : mutation) (o : object) : outcome :=
  match m with
  | Assign _ _ => rejected md
  | DefineProperty k v =>
      match props o !! k with
      | Some u => if same_value u v then Ignored else TypeError
      | None => TypeError
      end
  | Delete k =>
      match props o !! k with
      | Some _ => rejected md
      | None => Ignored
      end
  end.

(** The attempt [m] on the object at [r]: how it ends, and the heap
    after it. *)
Definition mutate (md : mode) (r : nat) (m : mutation) (h : list object)
  : outcome * list object :=
  match h !! r with
  | None => (TypeError, h)
  | Some o =>
      if frozen o then (rejection md m o, h)
      else (Done, <[r := Obj (apply_mutation m (props o)) false]> h)
  end.

(** A caller's session: the heap, and the snapshots it was handed. *)
Record session : Type := Session {
  heap : list object;
  snapshots : list nat
}.

Inductive action : Type :=
| CallGetConfig
| Attempt (md : mode) (i : nat) (m : mutation).

(** [Attempt md i m] tries [m] on the [i]-th snapshot obtained so far. *)
Definition step (s : session) (a : action) : session :=
  match a with
  | CallGetConfig =>
      let '(r, h) := getConfig (heap s) in Session h (snapshots s ++ [r])
  | Attempt md i m =>
      match snapshots s !! i with
      | Some r => Session (snd (mutate md r m (heap s))) (snapshots s)
      | None => s
      end
  end.

Definition run (acts : list action) (s : session) : session :=
  fold_left step acts s.

Definition start : session := Session init [].

(** What every reachable session satisfies: [CONSTANTS] is as the module
    created it, and every snapshot handed out is another object, frozen,
    with the properties of [CONSTANTS]. *)
Definition invariant (s : session) : Prop :=
  heap s !! CONSTANTS_ref = Some (Obj (props_of CONSTANTS) false) /\
  forall r : nat, r ∈ snapshots s ->
    r <> CONSTANTS_ref /\ heap s !! r = Some (Obj (props_of CONSTANTS) true).

End Config.

(** ** Entropy streams

    What the statements below say of the bytes the platform will hand
    out, from the position a call starts at. *)

Module Entropy.

Import JS Crypto.

(** The facility exists and throws on none of the calls to come. *)
Definition healthy (w : world) : Prop :=
  env w <> Bare /\ forall k, (calls w <= k)%nat -> fault w k = None.

(** The world after [j] more successful draws of [n] bytes each. *)
Definition after (j n : nat) (w : world) : world :=
  World (env w) (tape w) (fault w) (calls w + j) (cursor w + j * n).

(** The bytes of the [j]-th draw of [n] bytes, counted from position [pos]. *)
Definition chunk (t : nat -> Byte.byte) (n pos j : nat) : list Byte.byte :=
  List.map (fun i => t (pos + j * n + i)%nat) (List.seq 0 n).

(** The [j]-th draw of [bytesNeeded] bytes, packed and masked. *)
Definition masked (bytesNeeded mask : Z) (t : nat -> Byte.byte) (pos j : nat) : Z :=
  band (combine (chunk t (Z.to_nat bytesNeeded) pos j)) mask.

(** The value [getRandomInt(max)] compares with [max] on its [j]-th
    iteration. *)
Definition masked_draw (max : Z) (t : nat -> Byte.byte) (pos j : nat) : Z :=
  let bitsNeeded := ceil_log2 max in
  let bytesNeeded := ceil_div8 bitsNeeded in
  masked bytesNeeded (shl 1 bitsNeeded - 1) t pos j.

Definition eventually_accepts (max : Z) (t : nat -> Byte.byte) (pos : nat) : Prop :=
  exists j, masked_draw max t pos j < max.

(** From every position on, some draw is accepted. *)
Definition fair (max : Z) (t : nat -> Byte.byte) : Prop :=
  forall pos, eventually_accepts max t pos.

(** Two streams agree on the bytes a run consumed: those between the
    cursors [c1] and [c1'] of the first, read from [c2] on in the second. *)
Definition agree (t1 t2 : nat -> Byte.byte) (c1 c1' c2 : nat) : Prop :=
  forall i, (c1 + i < c1')%nat -> t1 (c1 + i)%nat = t2 (c2 + i)%nat.

(** Streams used as examples: every byte [b]; and [n] bytes [0xff]
    followed by bytes [b]. *)
Definition constant_tape (b : Byte.byte) : nat -> Byte.byte := fun _ => b.

Definition delayed_tape (n : nat) (b : Byte.byte) : nat -> Byte.byte :=
  fun i => if (i <? n)%nat then Byte.xff else b.

(** The last of every four bytes is [0x01], the others are [0x00]. *)
Definition ones_tape : nat -> Byte.byte :=
  fun i => if (i mod 4 =? 3)%nat then Byte.x01 else Byte.x00.

(** Bytes [0x00] on the positions [lo <= i < hi], [0xff] elsewhere. *)
Definition window_tape (lo hi : nat) : nat -> Byte.byte :=
  fun i => if ((lo <=? i) && (i <? hi))%nat then Byte.x00 else Byte.xff.

Definition never_faults : nat -> option string := fun _ => None.

Definition always_faults (m : string) : nat -> option string := fun _ => Some m.

Definition node (t : nat -> Byte.byte) : world := World Node t never_faults 0 0.

End Entropy.

(** ** Bytes, indices and digits

    Notions the further properties are stated with. *)

Module Alphabet.

Import JS Crypto Generator.

(** The 256 byte values, in order. *)
Definition all_bytes : list Byte.byte :=
  List.map (fun i => match Byte.of_N (N.of_nat i) with
                     | Some b => b
                     | None => Byte.x00
                     end)
           (List.seq 0 256).

(** What [getRandomInt(CHARSET.length)] makes of a draw of the one byte
    [b]: [num & mask] after [num = (0 << 8) | b]. *)
Definition index_of (b : Byte.byte) : Z :=
  band (combine [b]) (shl 1 (ceil_log2 charsetLength) - 1).

(** The test [num < max] on it. *)
Definition accepted (b : Byte.byte) : bool := index_of b <? charsetLength.

(** The characters [generate] appends for the accepted bytes of [bs]. *)
Fixpoint id_of_bytes (bs : list Byte.byte) : string :=
  match bs with
  | [] => EmptyString
  | b :: bs' =>
      if accepted b
      then char_at (CHARSET CONSTANTS) (index_of b) +:+ id_of_bytes bs'
      else id_of_bytes bs'
  end.

Definition is_digit (c : ascii) : bool :=
  ((48 <=? nat_of_ascii c) && (nat_of_ascii c <=? 57))%nat.

Definition is_alphanumeric (c : ascii) : bool :=
  is_digit c
  || ((65 <=? nat_of_ascii c) && (nat_of_ascii c <=? 90))%nat
  || ((97 <=? nat_of_ascii c) && (nat_of_ascii c <=? 122))%nat.

Fixpoint all_digits (s : string) : bool :=
  match s with
  | EmptyString => true
  | String c s' => is_digit c && all_digits s'
  end.

(** [r], padded to [f] characters, is [f] decimal digits. *)
Definition frac_ok (f : nat) (r : nat) : bool :=
  (String.length (pad_zeros f (digits (Z.of_nat r))) =? f)%nat
  && all_digits (pad_zeros f (digits (Z.of_nat r))).

(** The pattern [<digits>.<f digits>]. *)
Definition fixed_point_text (f : nat) (s : string) : Prop :=
  exists whole frac : string,
    s = whole +:+ "." +:+ frac /\
    whole <> EmptyString /\ all_digits whole = true /\
    String.length frac = f /\ all_digits frac = true.

End Alphabet.

(** ** The bundle size report (size-check script) *)

Module SizeCheck.

Import JS Generator.

Module LIMIT.
Definition CJS : Z := 5 * 1024.
Definition ESM : Z := 5 * 1024.
Definition GZIP : Z := 2 * 1024.
End LIMIT.

(** [`${(bytes / 1024).toFixed(2)} KB`]; the division by 1024 is exact
    in doubles. *)
Definition formatSize (bytes : Z) : string :=
  toFixed 2 (Qdiv (inject_Z bytes) (inject_Z 1024)) +:+ " KB".

End SizeCheck.

(** * Properties *)

Import JS Crypto Generator Entropy.

(** ** 32-bit arithmetic *)

Section Int32.

Lemma ToInt32_range x : - 2 ^ 31 <= ToInt32 x < 2 ^ 31.
Proof.
  unfold ToInt32.
  pose proof (Z.mod_pos_bound (x + 2 ^ 31) (2 ^ 32) ltac:(lia)). lia.
Qed.

Lemma ToInt32_small x : - 2 ^ 31 <= x < 2 ^ 31 -> ToInt32 x = x.
Proof.
  intros H. unfold ToInt32. rewrite Z.mod_small by lia. lia.
Qed.

Lemma ToInt32_mod x k : 0 <= k <= 32 -> ToInt32 x mod 2 ^ k = x mod 2 ^ k.
Proof.
  intros Hk. unfold ToInt32.
  assert (Hdiv : Z.divide (2 ^ k) (2 ^ 32)).
  { exists (2 ^ (32 - k)). rewrite <- Z.pow_add_r by lia. f_equal. lia. }
  rewrite Zminus_mod, Z.mod_mod_divide by exact Hdiv.
  rewrite <- Zminus_mod. f_equal. lia.
Qed.

Lemma ToInt32_congr x y : x mod 2 ^ 32 = y mod 2 ^ 32 -> ToInt32 x = ToInt32 y.
Proof.
  intros H. unfold ToInt32.
  rewrite (Zplus_mod x), (Zplus_mod y), H. reflexivity.
Qed.

Lemma ToInt32_idem x : ToInt32 (ToInt32 x) = ToInt32 x.
Proof. apply ToInt32_small, ToInt32_range. Qed.

Lemma byte_value_range b : 0 <= byte_value b < 256.
Proof.
  unfold byte_value. pose proof (Byte.to_N_bounded b). lia.
Qed.

(** Bits that do not overlap add up. *)
Lemma lor_low_byte t b :
  t mod 256 = 0 -> 0 <= b < 256 -> Z.lor t b = t + b.
Proof.
  intros Ht Hb.
  assert (Hland : Z.land t b = 0).
  { apply Z.bits_inj'. intros n Hn.
    rewrite Z.land_spec, Z.bits_0.
    destruct (Z.lt_ge_cases n 8) as [Hlt | Hge].
    - replace (Z.testbit t n) with false; [reflexivity |].
      symmetry. change 256 with (2 ^ 8) in Ht.
      rewrite <- (Z.mod_pow2_bits_low t 8 n) by lia.
      rewrite Ht. apply Z.bits_0.
    - replace (Z.testbit b n) with false; [apply andb_false_r |].
      symmetry. destruct (Z.eq_dec b 0) as [-> | Hnz]; [apply Z.bits_0 |].
      apply Z.bits_above_log2; [lia |].
      apply Z.log2_lt_pow2; [lia |]. 
      apply Z.lt_le_trans with (2 ^ 8); [change (2 ^ 8) with 256; lia |].
      apply Z.pow_le_mono_r; lia. }
  rewrite <- Z.lxor_lor by exact Hland.
  symmetry. apply Z.add_nocarry_lxor. exact Hland.
Qed.

(** One step of [num = (num << 8) | byte]. *)
Lemma bor_shl_byte a b :
  0 <= b < 256 -> bor (shl (ToInt32 a) 8) b = ToInt32 (a * 256 + b).
Proof.
  intros Hb. unfold bor, shl.
  change (8 mod 32) with 8.
  rewrite !ToInt32_idem, (ToInt32_small b) by lia.
  rewrite Z.shiftl_mul_pow2 by lia. change (2 ^ 8) with 256.
  set (t := ToInt32 (ToInt32 a * 256)).
  assert (Ht32 : t mod 2 ^ 32 = (a * 256) mod 2 ^ 32).
  { unfold t. rewrite ToInt32_mod by lia.
    rewrite Zmult_mod, (ToInt32_mod a 32) by lia.
    rewrite <- Zmult_mod. reflexivity. }
  assert (Ht8 : t mod 256 = 0).
  { change 256 with (2 ^ 8).
    assert (Hdiv : Z.divide (2 ^ 8) (2 ^ 32)) by (exists (2 ^ 24); reflexivity).
    rewrite <- (Z.mod_mod_divide t _ _ Hdiv), Ht32, Z.mod_mod_divide by exact Hdiv.
    change (2 ^ 8) with 256. apply Z_mod_mult. }
  rewrite lor_low_byte by assumption.
  pose proof (ToInt32_range (ToInt32 a * 256)) as Hr. fold t in Hr.
  assert (Hle : t <= 2 ^ 31 - 256).
  { apply Z.mod_divide in Ht8; [| lia]. destruct Ht8 as [q Hq].
    rewrite Hq in *. lia. }
  rewrite <- (ToInt32_small (t + b)) by lia.
  apply ToInt32_congr.
  rewrite Zplus_mod, Ht32, <- Zplus_mod. reflexivity.
Qed.

End Int32.

(** ** The bytes of a draw, the mask, the masked value *)

Section Sampling.

Lemma as_integer_of_Z z : as_integer (of_Z z) = Some z.
Proof.
  unfold as_integer, of_Z, inject_Z. cbn [Qnum Qden].
  rewrite Z.mod_1_r, Z.div_1_r. reflexivity.
Qed.

Lemma combine_from acc bytes :
  fold_left (fun num b => bor (shl num 8) (byte_value b)) bytes (ToInt32 acc)
  = ToInt32 (fold_left (fun a b => a * 256 + byte_value b) bytes acc).
Proof.
  revert acc. induction bytes as [| b bytes IH]; intros acc; cbn [fold_left].
  - reflexivity.
  - rewrite bor_shl_byte by apply byte_value_range. apply IH.
Qed.

(** The 32-bit packing is the big-endian integer, reduced to 32 bits. *)
Lemma combine_pack bytes :
  combine bytes = ToInt32 (SpecSampler.pack_big_endian bytes).
Proof.
  unfold combine, SpecSampler.pack_big_endian.
  rewrite <- combine_from. reflexivity.
Qed.

Lemma log2_up_bounds max :
  2 <= max <= 2 ^ 31 -> 1 <= Z.log2_up max <= 31.
Proof.
  intros H. split.
  - pose proof (Z.log2_up_pos max). lia.
  - apply Z.log2_up_le_pow2; lia.
Qed.

(** Up to 31 bits the 32-bit mask is the mask of the specification. *)
Lemma mask_int32 k :
  1 <= k <= 31 -> ToInt32 (shl 1 k - 1) = Z.ones k.
Proof.
  intros Hk.
  assert (Hcases : k = 31 \/ 1 <= k <= 30) by lia.
  destruct Hcases as [-> | Hk30]; [reflexivity |].
  unfold shl. rewrite Z.mod_small by lia.
  rewrite (ToInt32_small 1) by lia.
  rewrite Z.shiftl_1_l.
  assert (Hlt : 2 ^ k <= 2 ^ 30) by (apply Z.pow_le_mono_r; lia).
  assert (Hpos : 0 < 2 ^ k) by (apply Z.pow_pos_nonneg; lia).
  change (2 ^ 30) with 1073741824 in Hlt.
  rewrite (ToInt32_small (2 ^ k)) by lia.
  rewrite ToInt32_small by lia.
  rewrite Z.ones_equiv. lia.
Qed.

(** The masked value of the code is that of the specification. *)
Lemma masked_value bytes k :
  1 <= k <= 31 ->
  band (combine bytes) (shl 1 k - 1)
  = Z.land (SpecSampler.pack_big_endian bytes) (Z.shiftl 1 k - 1).
Proof.
  intros Hk. unfold band.
  rewrite mask_int32 by exact Hk.
  rewrite combine_pack, ToInt32_idem.
  rewrite Z.land_ones by lia.
  rewrite ToInt32_mod by lia.
  rewrite <- Z.land_ones by lia.
  reflexivity.
Qed.

Lemma masked_value_range bytes k :
  1 <= k <= 31 -> 0 <= band (combine bytes) (shl 1 k - 1) < 2 ^ k.
Proof.
  intros Hk. rewrite masked_value by exact Hk.
  replace (Z.shiftl 1 k - 1) with (Z.ones k)
    by (rewrite Z.ones_equiv, Z.shiftl_1_l; lia).
  rewrite Z.land_ones by lia.
  apply Z.mod_pos_bound, Z.pow_pos_nonneg; lia.
Qed.

End Sampling.

(** ** Draws on a healthy platform *)

Section Draws.

Lemma healthy_after j n w : healthy w -> healthy (after j n w).
Proof.
  intros [Henv Hfault]. split; [exact Henv |].
  intros k Hk. cbn in *. apply Hfault. lia.
Qed.

Lemma read_chunk w n : read w n = chunk (tape w) n (cursor w) 0.
Proof.
  unfold read, chunk. apply List.map_ext. intros i. f_equal. lia.
Qed.

Lemma chunk_shift t n pos j : chunk t n (pos + n) j = chunk t n pos (S j).
Proof.
  unfold chunk. apply List.map_ext. intros i. f_equal. lia.
Qed.

Lemma after_after j n w : after j n (after 1 n w) = after (S j) n w.
Proof.
  unfold after. cbn. f_equal; lia.
Qed.

(** A draw on a platform that has a facility, when the call does not throw. *)
Lemma getRandomBytes_ready n w :
  env w <> Bare -> fault w (calls w) = None -> 1 <= n ->
  getRandomBytes (of_Z n) w
  = Return (chunk (tape w) (Z.to_nat n) (cursor w) 0) (after 1 (Z.to_nat n) w).
Proof.
  intros Henv Hfault Hn. unfold getRandomBytes.
  rewrite as_integer_of_Z.
  destruct (Z.ltb_spec n 1) as [Hlt | _]; [lia |].
  assert (Hcrypto : exists i, getCrypto w = inl i).
  { unfold getCrypto, isBrowser. destruct (env w); eauto. contradiction. }
  destruct Hcrypto as [i ->].
  unfold draw. rewrite Hfault.
  rewrite read_chunk. f_equal. unfold after. f_equal; lia.
Qed.

Lemma getRandomBytes_healthy n w :
  healthy w -> 1 <= n ->
  getRandomBytes (of_Z n) w
  = Return (chunk (tape w) (Z.to_nat n) (cursor w) 0) (after 1 (Z.to_nat n) w).
Proof.
  intros [Henv Hfault] Hn.
  apply getRandomBytes_ready; [exact Henv | apply Hfault; lia | exact Hn].
Qed.

Lemma sample_S fuel max bytesNeeded mask w :
  sample (S fuel) max bytesNeeded mask w
  = match getRandomBytes (of_Z bytesNeeded) w with
    | Return bytes w' =>
        if band (combine bytes) mask <? max
        then Return (band (combine bytes) mask) w'
        else sample fuel max bytesNeeded mask w'
    | Throw e w' => Throw e w'
    | OutOfFuel => OutOfFuel
    end.
Proof.
  cbn [sample]. unfold bind. destruct (getRandomBytes _ w); try reflexivity.
  destruct (_ <? _); reflexivity.
Qed.

Variables (max bytesNeeded mask : Z).
Hypothesis bytes_pos : 1 <= bytesNeeded.

(** The loop returns the first accepted draw, whatever fuel is left. *)
Lemma sample_first_accepted k : forall w fuel,
  healthy w ->
  (forall j, (j < k)%nat -> max <= masked bytesNeeded mask (tape w) (cursor w) j) ->
  masked bytesNeeded mask (tape w) (cursor w) k < max ->
  sample (S k + fuel) max bytesNeeded mask w
  = Return (masked bytesNeeded mask (tape w) (cursor w) k) (after (S k) (Z.to_nat bytesNeeded) w).
Proof.
  induction k as [| k IH]; intros w fuel Hw Hrej Hacc.
  - change (1 + fuel)%nat with (S fuel).
    rewrite sample_S, getRandomBytes_healthy by assumption.
    fold (masked bytesNeeded mask (tape w) (cursor w) 0%nat).
    destruct (Z.ltb_spec (masked bytesNeeded mask (tape w) (cursor w) 0%nat) max); [reflexivity | lia].
  - change (S (S k) + fuel)%nat with (S (S k + fuel)).
    rewrite sample_S, getRandomBytes_healthy by assumption.
    fold (masked bytesNeeded mask (tape w) (cursor w) 0%nat).
    pose proof (Hrej 0%nat ltac:(lia)) as H0.
    destruct (Z.ltb_spec (masked bytesNeeded mask (tape w) (cursor w) 0%nat) max); [lia |].
    rewrite IH.
    + rewrite after_after. f_equal. cbn [after tape cursor].
      unfold masked. f_equal. f_equal.
      rewrite <- chunk_shift. f_equal. lia.
    + apply healthy_after, Hw.
    + intros j Hj. cbn [after tape cursor]. unfold masked.
      replace (cursor w + 1 * Z.to_nat bytesNeeded)%nat
        with (cursor w + Z.to_nat bytesNeeded)%nat by lia.
      rewrite chunk_shift. apply Hrej. lia.
    + cbn [after tape cursor]. unfold masked.
      replace (cursor w + 1 * Z.to_nat bytesNeeded)%nat
        with (cursor w + Z.to_nat bytesNeeded)%nat by lia.
      rewrite chunk_shift. exact Hacc.
Qed.

(** It does not stop before: with [k] rejected draws ahead, fuel [k]
    runs out. *)
Lemma sample_rejected k : forall w fuel,
  healthy w ->
  (forall j, (j < k)%nat -> max <= masked bytesNeeded mask (tape w) (cursor w) j) ->
  (fuel <= k)%nat ->
  sample fuel max bytesNeeded mask w = OutOfFuel.
Proof.
  induction k as [| k IH]; intros w fuel Hw Hrej Hfuel.
  - replace fuel with 0%nat by lia. reflexivity.
  - destruct fuel as [| fuel]; [reflexivity |].
    rewrite sample_S, getRandomBytes_healthy by assumption.
    fold (masked bytesNeeded mask (tape w) (cursor w) 0%nat).
    pose proof (Hrej 0%nat ltac:(lia)) as H0.
    destruct (Z.ltb_spec (masked bytesNeeded mask (tape w) (cursor w) 0%nat) max); [lia |].
    apply IH; [apply healthy_after, Hw | | lia].
    intros j Hj. cbn [after tape cursor]. unfold masked.
    replace (cursor w + 1 * Z.to_nat bytesNeeded)%nat
      with (cursor w + Z.to_nat bytesNeeded)%nat by lia.
    rewrite chunk_shift. apply Hrej. lia.
Qed.

End Draws.

(** ** The rejection loop *)

Section Loop.

Lemma getRandomInt_sample fuel max w :
  2 <= max ->
  getRandomInt fuel (of_Z max) w
  = sample fuel max (ceil_div8 (ceil_log2 max)) (shl 1 (ceil_log2 max) - 1) w.
Proof.
  intros Hmax. unfold getRandomInt. rewrite as_integer_of_Z.
  destruct (Z.ltb_spec max 1); [lia |].
  destruct (Z.eqb_spec max 1); [lia | reflexivity].
Qed.

Lemma bytesNeeded_pos max : 2 <= max -> 1 <= ceil_div8 (ceil_log2 max).
Proof.
  intros Hmax. unfold ceil_div8, ceil_log2.
  pose proof (Z.log2_up_pos max ltac:(lia)).
  apply Z.div_le_lower_bound; lia.
Qed.

(** A draw either hands out the next bytes or throws. *)
Lemma getRandomBytes_cases n w :
  1 <= n ->
  getRandomBytes (of_Z n) w
  = Return (chunk (tape w) (Z.to_nat n) (cursor w) 0) (after 1 (Z.to_nat n) w)
  \/ exists e w', getRandomBytes (of_Z n) w = Throw e w' /\ is_crypto_error e = true.
Proof.
  intros Hn. unfold getRandomBytes. rewrite as_integer_of_Z.
  destruct (Z.ltb_spec n 1); [lia |].
  destruct (getCrypto w); [| right; eauto].
  unfold draw. destruct (fault w (calls w)); [right; eauto |].
  left. rewrite read_chunk. f_equal. unfold after. f_equal; lia.
Qed.

(** With an accepted draw ahead the loop halts, also on a platform that
    throws on the way. *)
Lemma sample_halts max bytesNeeded mask k : forall w fuel,
  1 <= bytesNeeded ->
  band (combine (chunk (tape w) (Z.to_nat bytesNeeded) (cursor w) k)) mask < max ->
  sample (S k + fuel) max bytesNeeded mask w <> OutOfFuel.
Proof.
  induction k as [| k IH]; intros w fuel Hn Hacc.
  - change (1 + fuel)%nat with (S fuel). rewrite sample_S.
    destruct (getRandomBytes_cases bytesNeeded w Hn) as [-> | (e & w' & -> & _)];
      [| discriminate].
    destruct (Z.ltb_spec (band (combine (chunk (tape w) (Z.to_nat bytesNeeded) (cursor w) 0)) mask) max);
      [discriminate | lia].
  - change (S (S k) + fuel)%nat with (S (S k + fuel)). rewrite sample_S.
    destruct (getRandomBytes_cases bytesNeeded w Hn) as [-> | (e & w' & -> & _)];
      [| discriminate].
    destruct (_ <? _); [discriminate |].
    apply IH; [exact Hn |].
    cbn [after tape cursor].
    replace (cursor w + 1 * Z.to_nat bytesNeeded)%nat
      with (cursor w + Z.to_nat bytesNeeded)%nat by lia.
    rewrite chunk_shift. exact Hacc.
Qed.

(** The first accepted draw of a stream that has one. *)
Lemma first_accepted (P : nat -> Prop) :
  (forall n, {P n} + {~ P n}) ->
  (exists n, P n) ->
  exists k, P k /\ forall j, (j < k)%nat -> ~ P j.
Proof.
  intros Hdec [n Hn].
  induction n as [n IH] using lt_wf_ind.
  destruct (List.Exists_dec P (List.seq 0 n) Hdec) as [Hex | Hnone].
  - apply List.Exists_exists in Hex. destruct Hex as (m & Hin & Hm).
    apply List.in_seq in Hin. apply (IH m); [lia | exact Hm].
  - exists n. split; [exact Hn |].
    intros j Hj Hpj. apply Hnone, List.Exists_exists.
    exists j. split; [apply List.in_seq; lia | exact Hpj].
Qed.

End Loop.

(** On a platform that does not throw, the loop runs exactly up to the
    first accepted draw and returns it. *)
Lemma getRandomInt_first_accepted (max : Z) (w : world) :
  2 <= max <= 2 ^ 31 ->
  healthy w ->
  eventually_accepts max (tape w) (cursor w) ->
  exists (k : nat) (v : Z),
    v = masked_draw max (tape w) (cursor w) k /\
    0 <= v < max /\
    (forall fuel, (fuel <= k)%nat ->
       getRandomInt fuel (of_Z max) w = OutOfFuel) /\
    (forall fuel, (k < fuel)%nat ->
       getRandomInt fuel (of_Z max) w
       = Return v (after (S k) (Z.to_nat (ceil_div8 (ceil_log2 max))) w)).
Proof.
  intros Hmax Hw Hacc.
  pose proof (log2_up_bounds max Hmax) as Hbits.
  pose proof (bytesNeeded_pos max ltac:(lia)) as Hbytes.
  apply first_accepted in Hacc; [| intros n; apply Z_lt_dec].
  destruct Hacc as (k & Hk & Hfirst).
  exists k, (masked_draw max (tape w) (cursor w) k).
  split; [reflexivity |]. split.
  { split; [| exact Hk]. unfold masked_draw.
    apply masked_value_range. exact Hbits. }
  split.
  - intros fuel Hfuel. rewrite getRandomInt_sample by lia.
    apply (sample_rejected max _ _ Hbytes k); [exact Hw | | exact Hfuel].
    intros j Hj. specialize (Hfirst j Hj). unfold masked_draw in Hfirst. lia.
  - intros fuel Hfuel. rewrite getRandomInt_sample by lia.
    replace fuel with (S k + (fuel - S k))%nat by lia.
    apply (sample_first_accepted max _ _ Hbytes k); [exact Hw | | exact Hk].
    intros j Hj. specialize (Hfirst j Hj). unfold masked_draw in Hfirst. lia.
Qed.

(** C8.  For [2 <= max <= 2^31] the masked sample space has fewer than
    [2 * max] values, so fewer than half of them are rejected; and on
    every entropy stream that holds an accepted draw the loop of
    [getRandomInt] halts.  On a platform that does not throw it runs
    exactly up to the first accepted draw, however far that is (there is
    no cap on the iterations), and returns that draw. *)
Theorem getRandomInt_terminates (max : Z) :
  2 <= max <= 2 ^ 31 ->
  2 ^ ceil_log2 max < 2 * max /\
  forall w : world,
    eventually_accepts max (tape w) (cursor w) ->
    (exists fuel, forall fuel', (fuel <= fuel')%nat ->
       getRandomInt fuel' (of_Z max) w <> OutOfFuel) /\
    (healthy w ->
     exists (k : nat) (v : Z),
       v = masked_draw max (tape w) (cursor w) k /\
       0 <= v < max /\
       (forall fuel, (fuel <= k)%nat ->
          getRandomInt fuel (of_Z max) w = OutOfFuel) /\
       (forall fuel, (k < fuel)%nat ->
          getRandomInt fuel (of_Z max) w
          = Return v (after (S k) (Z.to_nat (ceil_div8 (ceil_log2 max))) w))).
Proof.
  intros Hmax.
  split.
  { unfold ceil_log2.
    pose proof (log2_up_bounds max Hmax) as Hbits.
    pose proof (Z.log2_up_spec max ltac:(lia)) as [Hlo _].
    replace (Z.log2_up max) with (Z.succ (Z.pred (Z.log2_up max))) by lia.
    rewrite Z.pow_succ_r by lia. lia. }
  intros w Hacc. split.
  - destruct Hacc as [k Hk]. exists (S k). intros fuel' Hfuel.
    rewrite getRandomInt_sample by lia.
    replace fuel' with (S k + (fuel' - S k))%nat by lia.
    apply sample_halts; [apply bytesNeeded_pos; lia | exact Hk].
  - intros Hw. apply getRandomInt_first_accepted; assumption.
Qed.

(** The statement of C8 at [max = 62], on a stream whose third byte is
    the first accepted one. *)
Lemma getRandomInt_terminates_witness :
  2 <= 62 <= 2 ^ 31 /\
  2 ^ ceil_log2 62 < 2 * 62 /\
  exists fuel, forall fuel', (fuel <= fuel')%nat ->
    getRandomInt fuel' (of_Z 62) (node (delayed_tape 2 Byte.x05)) <> OutOfFuel.
Proof.
  split; [lia |].
  destruct (getRandomInt_terminates 62 ltac:(lia)) as [Hhalf Hloop].
  split; [exact Hhalf |].
  apply (Hloop (node (delayed_tape 2 Byte.x05))).
  exists 2%nat. vm_compute. reflexivity.
Defined.

(** ** Bounds above 2^31 *)

(** C9.  For [2^31 < max <= 2^32], 32 bits are needed, the 32-bit shift
    turns the mask into 0, every masked value is 0, and [getRandomInt]
    returns 0 after its first draw of four bytes, whatever they are. *)
Theorem getRandomInt_constant_above_2_31 (max : Z) (w : world) (fuel : nat) :
  2 ^ 31 < max <= 2 ^ 32 ->
  env w <> Bare ->
  fault w (calls w) = None ->
  ceil_log2 max = 32 /\
  shl 1 (ceil_log2 max) - 1 = 0 /\
  (forall bytes, band (combine bytes) (shl 1 (ceil_log2 max) - 1) = 0) /\
  getRandomInt (S fuel) (of_Z max) w = Return 0 (after 1 4 w).
Proof.
  intros Hmax Henv Hfault.
  assert (Hbits : ceil_log2 max = 32).
  { unfold ceil_log2. apply Z.log2_up_unique; [lia |].
    change (Z.pred 32) with 31. lia. }
  rewrite Hbits.
  assert (Hzero : forall bytes, band (combine bytes) (shl 1 32 - 1) = 0).
  { intros bytes. unfold band. change (ToInt32 (shl 1 32 - 1)) with 0.
    apply Z.land_0_r. }
  repeat split; try reflexivity; try exact Hzero.
  rewrite getRandomInt_sample by lia.
  rewrite Hbits, sample_S.
  change (ceil_div8 32) with 4.
  rewrite getRandomBytes_ready by (assumption || lia).
  rewrite Hzero.
  destruct (Z.ltb_spec 0 max); [reflexivity | lia].
Qed.

Lemma getRandomInt_constant_above_2_31_witness :
  2 ^ 31 < 4000000000 <= 2 ^ 32 /\
  getRandomInt 1 (of_Z 4000000000) (node (constant_tape Byte.xff))
  = Return 0 (after 1 4 (node (constant_tape Byte.xff))).
Proof.
  split; [lia |].
  apply (getRandomInt_constant_above_2_31 4000000000
           (node (constant_tape Byte.xff)) 0).
  - lia.
  - discriminate.
  - reflexivity.
Defined.

(** ** The code against the sampler of the specification *)

Lemma sample_redraw fuel max : forall w,
  2 <= max <= 2 ^ 31 ->
  sample fuel max (ceil_div8 (ceil_log2 max)) (shl 1 (ceil_log2 max) - 1) w
  = SpecSampler.redraw fuel max w.
Proof.
  induction fuel as [| fuel IH]; intros w Hmax; [reflexivity |].
  rewrite sample_S. cbn [SpecSampler.redraw]. unfold bind.
  change (SpecSampler.bytesNeeded max) with (ceil_div8 (ceil_log2 max)).
  destruct (getRandomBytes _ w) as [bytes w' | e w' |]; try reflexivity.
  rewrite masked_value by (apply log2_up_bounds; exact Hmax).
  change (SpecSampler.mask max) with (Z.shiftl 1 (ceil_log2 max) - 1).
  destruct (_ <? _); [reflexivity | apply IH; exact Hmax].
Qed.

(** Up to [2^31] the code is the algorithm of the specification. *)
Lemma getRandomInt_refines_spec fuel max w :
  1 <= max <= 2 ^ 31 ->
  Crypto.getRandomInt fuel (of_Z max) w = SpecSampler.getRandomInt fuel max w.
Proof.
  intros Hmax. unfold SpecSampler.getRandomInt.
  destruct (Z.eqb_spec max 1) as [-> | Hne]; [reflexivity |].
  rewrite getRandomInt_sample by lia.
  apply sample_redraw. lia.
Qed.

(** C5.  For [1 <= max <= 2^31] the code is the sampler of the
    specification: 0 at once for [max = 1], otherwise the same draws, the
    same masked values, the same result.  At [max = 2^31 + 1] it is not:
    on the stream 00 00 00 01 ... the sampler of the specification packs
    the four bytes into 1, keeps it under the mask [2^32 - 1] and returns
    it; the code returns 0, its mask being 0. *)
Theorem getRandomInt_departs_from_spec :
  (forall fuel w, Crypto.getRandomInt fuel (of_Z 1) w = Return 0 w) /\
  (forall fuel max w,
     1 <= max <= 2 ^ 31 ->
     Crypto.getRandomInt fuel (of_Z max) w = SpecSampler.getRandomInt fuel max w) /\
  SpecSampler.getRandomInt 1 (2 ^ 31 + 1) (node ones_tape)
  = Return 1 (after 1 4 (node ones_tape)) /\
  Crypto.getRandomInt 1 (of_Z (2 ^ 31 + 1)) (node ones_tape)
  = Return 0 (after 1 4 (node ones_tape)).
Proof.
  split; [reflexivity |].
  split; [exact getRandomInt_refines_spec |].
  split; vm_compute; reflexivity.
Qed.

(** C5 at [max = 62], where code and specification agree: two rejected
    bytes [0xff], then 5. *)
Lemma getRandomInt_departs_from_spec_witness :
  1 <= 62 <= 2 ^ 31 /\
  Crypto.getRandomInt 3 (of_Z 62) (node (delayed_tape 2 Byte.x05))
  = SpecSampler.getRandomInt 3 62 (node (delayed_tape 2 Byte.x05)) /\
  SpecSampler.getRandomInt 3 62 (node (delayed_tape 2 Byte.x05))
  = Return 5 (after 3 1 (node (delayed_tape 2 Byte.x05))).
Proof.
  destruct getRandomInt_departs_from_spec as (_ & Hagree & _).
  split; [lia |]. split; [apply Hagree; lia |].
  vm_compute. reflexivity.
Defined.

(** ** Strings *)

Section Strings.

Lemma chars_app s1 s2 :
  list_ascii_of_string (s1 +:+ s2)
  = list_ascii_of_string s1 ++ list_ascii_of_string s2.
Proof.
  induction s1 as [| c s1 IH]; simpl; [reflexivity | f_equal; exact IH].
Qed.

Lemma chars_length s : length (list_ascii_of_string s) = String.length s.
Proof.
  induction s as [| c s IH]; simpl; [reflexivity | f_equal; exact IH].
Qed.

Lemma get_in n : forall s,
  (n < String.length s)%nat ->
  exists c, String.get n s = Some c /\ List.In c (list_ascii_of_string s).
Proof.
  induction n as [| n IH]; intros [| c s] Hn; cbn in Hn; try lia.
  - exists c. split; [reflexivity | now left].
  - destruct (IH s ltac:(lia)) as (c' & Hget & Hin).
    exists c'. split; [exact Hget | now right].
Qed.

(** An index in range selects one character of the charset. *)
Lemma char_at_charset i :
  0 <= i < charsetLength ->
  exists c, char_at (CHARSET CONSTANTS) i = String c EmptyString /\ in_charset c.
Proof.
  intros Hi. unfold char_at.
  destruct (Z.ltb_spec i 0); [lia |].
  destruct (get_in (Z.to_nat i) (CHARSET CONSTANTS)) as (c & Hget & Hin).
  { unfold charsetLength in Hi. lia. }
  rewrite Hget. exists c. split; [reflexivity | exact Hin].
Qed.

End Strings.

(** ** Generated identifiers *)

Section Generate.

(** What [getRandomInt] returns is below its bound. *)
Lemma sample_range max bytesNeeded k fuel : forall w v w',
  1 <= k <= 31 ->
  sample fuel max bytesNeeded (shl 1 k - 1) w = Return v w' ->
  0 <= v < max.
Proof.
  induction fuel as [| fuel IH]; intros w v w' Hk Hrun; [discriminate |].
  rewrite sample_S in Hrun.
  destruct (getRandomBytes _ w) as [bytes w1 | e w1 |]; try discriminate.
  destruct (Z.ltb_spec (band (combine bytes) (shl 1 k - 1)) max) as [Hlt | Hge].
  - injection Hrun as <- _.
    pose proof (masked_value_range bytes k Hk). lia.
  - eapply IH; eassumption.
Qed.

Lemma getRandomInt_range fuel max w v w' :
  1 <= max <= 2 ^ 31 ->
  getRandomInt fuel (of_Z max) w = Return v w' ->
  0 <= v < max.
Proof.
  intros Hmax Hrun.
  destruct (Z.eq_dec max 1) as [-> | Hne].
  - unfold getRandomInt in Hrun. rewrite as_integer_of_Z in Hrun.
    cbn in Hrun. injection Hrun as <- _. lia.
  - rewrite getRandomInt_sample in Hrun by lia.
    eapply sample_range; [| exact Hrun].
    apply log2_up_bounds. lia.
Qed.

Lemma charsetLength_62 : charsetLength = 62.
Proof. reflexivity. Qed.

Lemma draw_chars_S fuel n id w :
  draw_chars fuel (S n) id w
  = match getRandomInt fuel (of_Z charsetLength) w with
    | Return randomIndex w' =>
        draw_chars fuel n (id +:+ char_at (CHARSET CONSTANTS) randomIndex) w'
    | Throw e w' => Throw e w'
    | OutOfFuel => OutOfFuel
    end.
Proof. reflexivity. Qed.

Lemma append_assoc (s1 s2 s3 : string) : (s1 +:+ s2) +:+ s3 = s1 +:+ (s2 +:+ s3).
Proof.
  induction s1 as [| c s1 IH]; [reflexivity |].
  change (String c ((s1 +:+ s2) +:+ s3) = String c (s1 +:+ (s2 +:+ s3))).
  f_equal. exact IH.
Qed.

Lemma append_empty (s : string) : s = s +:+ EmptyString.
Proof.
  induction s as [| c s IH]; [reflexivity |].
  change (String c s = String c (s +:+ EmptyString)). f_equal. exact IH.
Qed.

(** The loop of [generate] appends [n] characters of the charset. *)
Lemma draw_chars_appends fuel n : forall id w id' w',
  draw_chars fuel n id w = Return id' w' ->
  exists suffix,
    id' = id +:+ suffix /\
    String.length suffix = n /\
    List.Forall in_charset (list_ascii_of_string suffix).
Proof.
  induction n as [| n IH]; intros id w id' w' Hrun.
  - injection Hrun as <- _. exists EmptyString.
    split; [apply append_empty | split; [reflexivity | constructor]].
  - rewrite draw_chars_S in Hrun.
    destruct (getRandomInt fuel (of_Z charsetLength) w) as [i w1 | e w1 |] eqn:Hint;
      try discriminate.
    apply getRandomInt_range in Hint; [| rewrite charsetLength_62; lia].
    destruct (char_at_charset i Hint) as (c & Hc & Hin).
    rewrite Hc in Hrun.
    destruct (IH _ _ _ _ Hrun) as (suffix & -> & Hlen & Hall).
    exists (String c suffix). split; [| split].
    + rewrite append_assoc. reflexivity.
    + cbn. now rewrite Hlen.
    + cbn. constructor; assumption.
Qed.

End Generate.

Section GenerateRuns.

Lemma validateLength_valid length n w :
  as_integer length = Some n -> 7 <= n <= 32 ->
  validateLength length w = Return tt w.
Proof.
  intros Hint Hn. unfold validateLength. rewrite Hint.
  cbn [MIN_LENGTH MAX_LENGTH CONSTANTS].
  destruct (Z.ltb_spec n 7); [lia |].
  destruct (Z.gtb_spec n 32); [lia | reflexivity].
Qed.

Lemma default_param_integer length dflt n :
  as_integer length = Some n -> default_param length dflt = length.
Proof.
  destruct length; cbn; try discriminate; reflexivity.
Qed.

Lemma generate_valid fuel length n w :
  as_integer length = Some n -> 7 <= n <= 32 ->
  generate fuel length w = draw_chars fuel (Z.to_nat n) EmptyString w.
Proof.
  intros Hint Hn. unfold generate, bind.
  rewrite (default_param_integer _ _ _ Hint).
  rewrite (validateLength_valid _ _ _ Hint Hn).
  unfold integer_value. rewrite Hint. reflexivity.
Qed.

(** On a healthy platform with a fair stream the loop of [generate]
    returns, for every fuel from some bound on. *)
Lemma draw_chars_returns n : forall id w,
  healthy w -> fair charsetLength (tape w) ->
  exists fuel, forall fuel', (fuel <= fuel')%nat ->
    exists id' w', draw_chars fuel' n id w = Return id' w'.
Proof.
  induction n as [| n IH]; intros id w Hw Hfair.
  - exists 0%nat. intros fuel' _. exists id, w. reflexivity.
  - destruct (getRandomInt_first_accepted charsetLength w)
      as (k & v & _ & _ & _ & Hret).
    { rewrite charsetLength_62. lia. }
    { exact Hw. }
    { apply Hfair. }
    set (w1 := after (S k) (Z.to_nat (ceil_div8 (ceil_log2 charsetLength))) w) in *.
    destruct (IH (id +:+ char_at (CHARSET CONSTANTS) v) w1) as [fuel1 Hfuel1].
    { apply healthy_after, Hw. }
    { exact Hfair. }
    exists (Nat.max (S k) fuel1). intros fuel' Hfuel'.
    rewrite draw_chars_S, Hret by lia.
    apply Hfuel1. lia.
Qed.

End GenerateRuns.

(** C1.  For an integer [length] with [7 <= length <= 32], every string
    [generate(length)] returns has exactly [length] characters, all of
    them in the 62-character charset; and [generate(length)] does return
    one on a platform that does not throw and whose stream is fair. *)
Theorem generate_length_charset (length : value) (n : Z) :
  as_integer length = Some n ->
  7 <= n <= 32 ->
  (forall fuel w id w',
     generate fuel length w = Return id w' ->
     Z.of_nat (String.length id) = n /\
     List.Forall in_charset (list_ascii_of_string id)) /\
  (forall w,
     healthy w -> fair charsetLength (tape w) ->
     exists fuel id w', generate fuel length w = Return id w').
Proof.
  intros Hint Hn. split.
  - intros fuel w id w' Hrun.
    rewrite (generate_valid _ _ _ _ Hint Hn) in Hrun.
    apply draw_chars_appends in Hrun.
    destruct Hrun as (suffix & -> & Hlen & Hall).
    change (EmptyString +:+ suffix) with suffix.
    split; [lia | exact Hall].
  - intros w Hw Hfair.
    destruct (draw_chars_returns (Z.to_nat n) EmptyString w Hw Hfair) as [fuel Hfuel].
    destruct (Hfuel fuel ltac:(lia)) as (id & w' & Hrun).
    exists fuel, id, w'.
    rewrite (generate_valid _ _ _ _ Hint Hn). exact Hrun.
Qed.

Lemma constant_tape_fair : fair charsetLength (constant_tape Byte.x00).
Proof.
  intros pos. exists 0%nat. vm_compute. reflexivity.
Qed.

Lemma node_healthy t : healthy (node t).
Proof.
  split; [discriminate | reflexivity].
Qed.

(** C1 at [length = 7], with the identifier the all-zero stream gives. *)
Lemma generate_length_charset_witness :
  as_integer (of_Z 7) = Some 7 /\
  7 <= 7 <= 32 /\
  generate 1 (of_Z 7) (node (constant_tape Byte.x00))
  = Return "aaaaaaa" (after 7 1 (node (constant_tape Byte.x00))) /\
  Z.of_nat (String.length "aaaaaaa") = 7 /\
  List.Forall in_charset (list_ascii_of_string "aaaaaaa") /\
  exists fuel id w',
    generate fuel (of_Z 7) (node (constant_tape Byte.x00)) = Return id w'.
Proof.
  assert (Hrun : generate 1 (of_Z 7) (node (constant_tape Byte.x00))
                 = Return "aaaaaaa" (after 7 1 (node (constant_tape Byte.x00))))
    by (vm_compute; reflexivity).
  destruct (generate_length_charset (of_Z 7) 7 eq_refl ltac:(lia)) as [Hpart Htotal].
  destruct (Hpart _ _ _ _ Hrun) as [Hlen Hall].
  repeat split; try assumption; try lia.
  apply Htotal; [apply node_healthy | apply constant_tape_fair].
Defined.

(** ** Dependence on the consumed bytes only *)

Section Determinism.

Lemma getRandomBytes_return n w bytes w' :
  1 <= n ->
  getRandomBytes (of_Z n) w = Return bytes w' ->
  bytes = chunk (tape w) (Z.to_nat n) (cursor w) 0 /\ w' = after 1 (Z.to_nat n) w.
Proof.
  intros Hn Hrun.
  destruct (getRandomBytes_cases n w Hn) as [Heq | (e & w1 & Heq & _)];
    rewrite Heq in Hrun; [| discriminate].
  injection Hrun as <- <-. split; reflexivity.
Qed.

(** A run of the loop leaves the stream as it is and moves the cursor
    forward by at least one draw. *)
Lemma sample_frame max n mask fuel : forall w v w',
  1 <= n ->
  sample fuel max n mask w = Return v w' ->
  tape w' = tape w /\ (cursor w + Z.to_nat n <= cursor w')%nat.
Proof.
  induction fuel as [| fuel IH]; intros w v w' Hn Hrun; [discriminate |].
  rewrite sample_S in Hrun.
  destruct (getRandomBytes (of_Z n) w) as [bytes w1 | e w1 |] eqn:Hbytes;
    try discriminate.
  apply getRandomBytes_return in Hbytes; [| exact Hn].
  destruct Hbytes as [_ ->].
  destruct (_ <? _).
  - injection Hrun as _ <-. cbn. split; [reflexivity | lia].
  - apply IH in Hrun; [| exact Hn]. cbn in Hrun.
    destruct Hrun as [Htape Hcur]. split; [exact Htape | lia].
Qed.

Lemma chunk_agree t1 t2 n c1 c1' c2 :
  agree t1 t2 c1 c1' c2 -> (c1 + n <= c1')%nat ->
  chunk t1 n c1 0 = chunk t2 n c2 0.
Proof.
  intros Hagree Hn. unfold chunk. apply List.map_ext_in.
  intros i Hi. apply List.in_seq in Hi.
  replace (c1 + 0 * n + i)%nat with (c1 + i)%nat by lia.
  replace (c2 + 0 * n + i)%nat with (c2 + i)%nat by lia.
  apply Hagree. lia.
Qed.

Lemma sample_deterministic max n mask fuel1 : forall fuel2 w1 w2 v1 v2 w1' w2',
  1 <= n ->
  sample fuel1 max n mask w1 = Return v1 w1' ->
  sample fuel2 max n mask w2 = Return v2 w2' ->
  agree (tape w1) (tape w2) (cursor w1) (cursor w1') (cursor w2) ->
  v1 = v2 /\ (cursor w2' + cursor w1 = cursor w1' + cursor w2)%nat.
Proof.
  induction fuel1 as [| fuel1 IH];
    intros fuel2 w1 w2 v1 v2 w1' w2' Hn Hrun1 Hrun2 Hagree; [discriminate |].
  destruct fuel2 as [| fuel2]; [discriminate |].
  pose proof (sample_frame _ _ _ _ _ _ _ Hn Hrun1) as [_ Hcur1].
  rewrite sample_S in Hrun1, Hrun2.
  destruct (getRandomBytes (of_Z n) w1) as [b1 wa | |] eqn:Hb1; try discriminate.
  destruct (getRandomBytes (of_Z n) w2) as [b2 wb | |] eqn:Hb2; try discriminate.
  apply getRandomBytes_return in Hb1, Hb2; try exact Hn.
  destruct Hb1 as [-> ->], Hb2 as [-> ->].
  rewrite <- (chunk_agree _ _ _ _ _ _ Hagree Hcur1) in Hrun2.
  destruct (_ <? _).
  - injection Hrun1 as <- <-. injection Hrun2 as <- <-.
    split; [reflexivity | cbn; lia].
  - destruct (IH _ _ _ _ _ _ _ Hn Hrun1 Hrun2) as [Hv Hcur].
    + intros i Hi. cbn [after tape cursor] in *.
      match goal with
      | |- tape w1 ?a = tape w2 ?b =>
          replace a with (cursor w1 + (Z.to_nat n + i))%nat by lia;
          replace b with (cursor w2 + (Z.to_nat n + i))%nat by lia
      end.
      apply Hagree. lia.
    + split; [exact Hv | cbn in Hcur; lia].
Qed.

Lemma getRandomInt_frame fuel max w v w' :
  getRandomInt fuel max w = Return v w' ->
  tape w' = tape w /\ (cursor w <= cursor w')%nat.
Proof.
  unfold getRandomInt, throw, ret. intros Hrun.
  destruct (as_integer max) as [m |]; [| discriminate].
  destruct (Z.ltb_spec m 1); [discriminate |].
  destruct (Z.eqb_spec m 1).
  - injection Hrun as _ <-. split; [reflexivity | lia].
  - apply sample_frame in Hrun; [| apply bytesNeeded_pos; lia].
    destruct Hrun as [Htape Hcur]. split; [exact Htape | lia].
Qed.

Lemma getRandomInt_deterministic max fuel1 fuel2 w1 w2 v1 v2 w1' w2' :
  getRandomInt fuel1 max w1 = Return v1 w1' ->
  getRandomInt fuel2 max w2 = Return v2 w2' ->
  agree (tape w1) (tape w2) (cursor w1) (cursor w1') (cursor w2) ->
  v1 = v2 /\ (cursor w2' + cursor w1 = cursor w1' + cursor w2)%nat.
Proof.
  unfold getRandomInt, throw, ret. intros Hrun1 Hrun2 Hagree.
  destruct (as_integer max) as [m |]; [| discriminate].
  destruct (Z.ltb_spec m 1); [discriminate |].
  destruct (Z.eqb_spec m 1).
  - injection Hrun1 as <- <-. injection Hrun2 as <- <-.
    split; [reflexivity | lia].
  - apply (sample_deterministic _ _ _ _ _ _ _ _ _ _ _
             (bytesNeeded_pos m ltac:(lia)) Hrun1 Hrun2 Hagree).
Qed.

Lemma draw_chars_frame fuel n : forall id w id' w',
  draw_chars fuel n id w = Return id' w' ->
  tape w' = tape w /\ (cursor w <= cursor w')%nat.
Proof.
  induction n as [| n IH]; intros id w id' w' Hrun.
  - injection Hrun as _ <-. split; [reflexivity | lia].
  - rewrite draw_chars_S in Hrun.
    destruct (getRandomInt fuel (of_Z charsetLength) w) as [i wa | |] eqn:Hint;
      try discriminate.
    apply getRandomInt_frame in Hint. apply IH in Hrun.
    destruct Hint as [Ht1 Hc1], Hrun as [Ht2 Hc2].
    split; [congruence | lia].
Qed.

Lemma draw_chars_deterministic fuel1 fuel2 n : forall id w1 w2 id1 id2 w1' w2',
  draw_chars fuel1 n id w1 = Return id1 w1' ->
  draw_chars fuel2 n id w2 = Return id2 w2' ->
  agree (tape w1) (tape w2) (cursor w1) (cursor w1') (cursor w2) ->
  id1 = id2 /\ (cursor w2' + cursor w1 = cursor w1' + cursor w2)%nat.
Proof.
  induction n as [| n IH]; intros id w1 w2 id1 id2 w1' w2' Hrun1 Hrun2 Hagree.
  - injection Hrun1 as <- <-. injection Hrun2 as <- <-.
    split; [reflexivity | lia].
  - rewrite draw_chars_S in Hrun1, Hrun2.
    destruct (getRandomInt fuel1 (of_Z charsetLength) w1) as [i1 wa | |] eqn:Hint1;
      try discriminate.
    destruct (getRandomInt fuel2 (of_Z charsetLength) w2) as [i2 wb | |] eqn:Hint2;
      try discriminate.
    pose proof (getRandomInt_frame _ _ _ _ _ Hint1) as [Hta Hca].
    pose proof (getRandomInt_frame _ _ _ _ _ Hint2) as [Htb Hcb].
    pose proof (draw_chars_frame _ _ _ _ _ _ Hrun1) as [_ Hcur1].
    destruct (getRandomInt_deterministic _ _ _ _ _ _ _ _ _ Hint1 Hint2)
      as [<- Hstep].
    { intros i Hi. apply Hagree. lia. }
    destruct (IH _ _ _ _ _ _ _ Hrun1 Hrun2) as [Hid Hcur].
    + intros i Hi. rewrite Hta, Htb.
      replace (cursor wa + i)%nat
        with (cursor w1 + (cursor wa - cursor w1 + i))%nat by lia.
      replace (cursor wb + i)%nat
        with (cursor w2 + (cursor wa - cursor w1 + i))%nat by lia.
      apply Hagree. lia.
    + split; [exact Hid | lia].
Qed.

Lemma generate_draw_chars fuel length w id w' :
  generate fuel length w = Return id w' ->
  draw_chars fuel
    (Z.to_nat (integer_value (default_param length (of_Z (DEFAULT_LENGTH CONSTANTS)))))
    EmptyString w = Return id w'.
Proof.
  unfold generate, bind. intros Hrun.
  destruct (validateLength _ w) as [[] w1 | |] eqn:Hval; try discriminate.
  assert (w1 = w) as ->; [| exact Hrun].
  unfold validateLength, throw, ret in Hval.
  destruct (as_integer _); [| discriminate].
  destruct (_ <? _); [discriminate |].
  destruct (_ >? _); [discriminate |].
  now injection Hval.
Qed.

End Determinism.

(** C10.  Two runs of [generate] on the same length that return, the
    second on a stream that repeats the bytes the first consumed, return
    the same identifier and consume as many bytes: the platform, the
    position in the stream, the bytes beyond and the schedule of faults
    play no part. *)
Theorem generate_deterministic (length : value) (fuel1 fuel2 : nat)
    (w1 w2 w1' w2' : world) (id1 id2 : string) :
  generate fuel1 length w1 = Return id1 w1' ->
  generate fuel2 length w2 = Return id2 w2' ->
  (forall i, (cursor w1 + i < cursor w1')%nat ->
     tape w1 (cursor w1 + i)%nat = tape w2 (cursor w2 + i)%nat) ->
  id1 = id2 /\ (cursor w2' - cursor w2 = cursor w1' - cursor w1)%nat.
Proof.
  intros Hrun1 Hrun2 Hagree.
  apply generate_draw_chars in Hrun1, Hrun2.
  pose proof (draw_chars_frame _ _ _ _ _ _ Hrun1) as [_ Hc1].
  pose proof (draw_chars_frame _ _ _ _ _ _ Hrun2) as [_ Hc2].
  destruct (draw_chars_deterministic _ _ _ _ _ _ _ _ _ _ Hrun1 Hrun2 Hagree)
    as [Hid Hcur].
  split; [exact Hid | lia].
Qed.

(** C10 on a Node platform reading zeros from position 0 and a browser
    reading the same seven zeros from position 3 of another stream. *)
Lemma generate_deterministic_witness :
  generate 1 (of_Z 7) (node (constant_tape Byte.x00))
  = Return "aaaaaaa" (after 7 1 (node (constant_tape Byte.x00))) /\
  generate 4 (of_Z 7) (World Browser (window_tape 3 10) never_faults 5 3)
  = Return "aaaaaaa" (after 7 1 (World Browser (window_tape 3 10) never_faults 5 3)) /\
  ("aaaaaaa"%string = "aaaaaaa"%string /\ (10 - 3 = 7 - 0)%nat).
Proof.
  assert (Hrun1 : generate 1 (of_Z 7) (node (constant_tape Byte.x00))
                  = Return "aaaaaaa" (after 7 1 (node (constant_tape Byte.x00))))
    by (vm_compute; reflexivity).
  assert (Hrun2 : generate 4 (of_Z 7) (World Browser (window_tape 3 10) never_faults 5 3)
                  = Return "aaaaaaa"
                      (after 7 1 (World Browser (window_tape 3 10) never_faults 5 3)))
    by (vm_compute; reflexivity).
  split; [exact Hrun1 |]. split; [exact Hrun2 |].
  apply (generate_deterministic _ _ _ _ _ _ _ _ _ Hrun1 Hrun2).
  intros i Hi. cbn in Hi.
  do 7 (destruct i as [| i]; [reflexivity |]). lia.
Defined.

(** ** Validation *)

Section Validation.

Lemma generateWithInfo_rejects Math_exp fuel arg w e :
  validateLength (default_param arg (of_Z (DEFAULT_LENGTH CONSTANTS))) w = Throw e w ->
  generate fuel arg w = Throw e w /\
  generateWithInfo Math_exp fuel arg w = Throw e w.
Proof.
  intros Hval. unfold generate, generateWithInfo, bind.
  rewrite Hval. split; reflexivity.
Qed.

End Validation.

(** C4.  Let [length] be the value of the parameter, the default 7 when
    the argument is absent or [undefined].  If [length] is not an integer
    (not a number, fractional, [NaN], infinite), [generate] and
    [generateWithInfo] throw the validation error "must be an integer";
    if it is an integer below 7, "must be at least 7 characters"; if it
    is an integer above 32, "cannot exceed 32 characters".  In each case
    the world is the one the call started in: nothing was drawn. *)
Theorem validation_before_any_draw
    (Math_exp : Q -> Q) (fuel : nat) (arg : value) (w : world) :
  let length := default_param arg (of_Z (DEFAULT_LENGTH CONSTANTS)) in
  (Number_isInteger length = false ->
   generate fuel arg w
   = Throw (ZapidValidationError "ID length must be an integer") w /\
   generateWithInfo Math_exp fuel arg w
   = Throw (ZapidValidationError "ID length must be an integer") w) /\
  (forall n, as_integer length = Some n -> n < 7 ->
   generate fuel arg w
   = Throw (ZapidValidationError "ID length must be at least 7 characters") w /\
   generateWithInfo Math_exp fuel arg w
   = Throw (ZapidValidationError "ID length must be at least 7 characters") w) /\
  (forall n, as_integer length = Some n -> 32 < n ->
   generate fuel arg w
   = Throw (ZapidValidationError "ID length cannot exceed 32 characters") w /\
   generateWithInfo Math_exp fuel arg w
   = Throw (ZapidValidationError "ID length cannot exceed 32 characters") w).
Proof.
  intros length. apply conj; [| apply conj].
  - intros Hint. apply generateWithInfo_rejects. fold length.
    unfold Number_isInteger in Hint. unfold validateLength.
    destruct (as_integer length); [discriminate | reflexivity].
  - intros n Hint Hn. apply generateWithInfo_rejects. fold length.
    unfold validateLength. rewrite Hint. cbn [MIN_LENGTH CONSTANTS].
    destruct (Z.ltb_spec n 7); [reflexivity | lia].
  - intros n Hint Hn. apply generateWithInfo_rejects. fold length.
    unfold validateLength. rewrite Hint. cbn [MIN_LENGTH MAX_LENGTH CONSTANTS].
    destruct (Z.ltb_spec n 7); [lia |].
    destruct (Z.gtb_spec n 32); [reflexivity | lia].
Qed.

(** C4 at the lengths 7.5, 6 and 33. *)
Lemma validation_before_any_draw_witness :
  let w := node (constant_tape Byte.x00) in
  generate 1 (VNumber (Finite (15 # 2))) w
  = Throw (ZapidValidationError "ID length must be an integer") w /\
  generateWithInfo (fun x => Qplus 1 x) 1 (of_Z 6) w
  = Throw (ZapidValidationError "ID length must be at least 7 characters") w /\
  generate 1 (of_Z 33) w
  = Throw (ZapidValidationError "ID length cannot exceed 32 characters") w.
Proof.
  intros w.
  split; [| split].
  - apply (validation_before_any_draw (fun x => Qplus 1 x) 1
             (VNumber (Finite (15 # 2))) w).
    reflexivity.
  - apply (validation_before_any_draw (fun x => Qplus 1 x) 1 (of_Z 6) w)
      with (n := 6); [reflexivity | lia].
  - apply (validation_before_any_draw (fun x => Qplus 1 x) 1 (of_Z 33) w)
      with (n := 33); [reflexivity | lia].
Defined.

(** ** Errors of the random source *)

Section CryptoErrors.

Lemma sample_throws max n mask fuel : forall w e w',
  sample fuel max n mask w = Throw e w' ->
  exists w0, getRandomBytes (of_Z n) w0 = Throw e w'.
Proof.
  induction fuel as [| fuel IH]; intros w e w' Hrun; [discriminate |].
  rewrite sample_S in Hrun.
  destruct (getRandomBytes (of_Z n) w) as [bytes w1 | e1 w1 |] eqn:Hbytes;
    try discriminate.
  - destruct (_ <? _); [discriminate | eapply IH; exact Hrun].
  - injection Hrun as <- <-. exists w. exact Hbytes.
Qed.

Lemma getRandomBytes_throws_crypto n w e w' :
  getRandomBytes n w = Throw e w' -> is_crypto_error e = true.
Proof.
  unfold getRandomBytes. intros Hrun.
  destruct (as_integer n); [| injection Hrun as <- _; reflexivity].
  destruct (_ <? _); [injection Hrun as <- _; reflexivity |].
  destruct (getCrypto w); [| injection Hrun as <- _; reflexivity].
  destruct (draw _ w) as [[bytes | m] w1]; [discriminate |].
  injection Hrun as <- _. reflexivity.
Qed.

End CryptoErrors.

(** C6.  [getRandomBytes(n)] and [getRandomInt(max)] throw a
    [CryptoGenerationError] when their argument is not a positive
    integer.  For a positive integer [n], [getRandomBytes(n)] throws a
    [CryptoGenerationError] whose message ends with the message of the
    underlying error when the platform has no facility or the facility
    throws.  [getRandomInt(max)], [max >= 2], throws the error of its
    first draw when that draw throws, and every error it throws from its
    loop is the error of one of its draws. *)
Theorem crypto_errors (fuel : nat) (w : world) :
  (forall n, positive_integer n = false ->
     getRandomBytes n w
     = Throw (CryptoGenerationError "Random bytes length must be a positive integer") w) /\
  (forall max, positive_integer max = false ->
     getRandomInt fuel max w
     = Throw (CryptoGenerationError "Maximum value must be a positive integer") w) /\
  (forall n, positive_integer n = true -> env w = Bare ->
     getRandomBytes n w
     = Throw (CryptoGenerationError
                ("Failed to generate random bytes: " +:+
                 "No secure crypto implementation available. Ensure you are in a supported environment."))
             w) /\
  (forall n m, positive_integer n = true -> env w <> Bare ->
     fault w (calls w) = Some m ->
     exists w',
       getRandomBytes n w
       = Throw (CryptoGenerationError ("Failed to generate random bytes: " +:+ m)) w') /\
  (forall max e w', 2 <= max ->
     getRandomBytes (of_Z (ceil_div8 (ceil_log2 max))) w = Throw e w' ->
     getRandomInt (S fuel) (of_Z max) w = Throw e w') /\
  (forall max e w', 2 <= max ->
     getRandomInt fuel (of_Z max) w = Throw e w' ->
     is_crypto_error e = true /\
     exists w0, getRandomBytes (of_Z (ceil_div8 (ceil_log2 max))) w0 = Throw e w').
Proof.
  repeat apply conj.
  - intros n Hn. unfold positive_integer in Hn. unfold getRandomBytes.
    destruct (as_integer n) as [k |]; [| reflexivity].
    destruct (Z.ltb_spec k 1); [reflexivity | lia].
  - intros max Hmax. unfold positive_integer in Hmax. unfold getRandomInt, throw.
    destruct (as_integer max) as [k |]; [| reflexivity].
    destruct (Z.ltb_spec k 1); [reflexivity | lia].
  - intros n Hn Henv. unfold positive_integer in Hn. unfold getRandomBytes.
    destruct (as_integer n) as [k |]; [| discriminate].
    destruct (Z.ltb_spec k 1); [lia |].
    unfold getCrypto, isBrowser. rewrite Henv. reflexivity.
  - intros n m Hn Henv Hfault. unfold positive_integer in Hn. unfold getRandomBytes.
    destruct (as_integer n) as [k |]; [| discriminate].
    destruct (Z.ltb_spec k 1); [lia |].
    assert (Hcrypto : exists i, getCrypto w = inl i).
    { unfold getCrypto, isBrowser. destruct (env w); eauto. contradiction. }
    destruct Hcrypto as [i ->].
    unfold draw. rewrite Hfault. eexists. reflexivity.
  - intros max e w' Hmax Hbytes.
    rewrite getRandomInt_sample, sample_S, Hbytes by lia. reflexivity.
  - intros max e w' Hmax Hrun.
    rewrite getRandomInt_sample in Hrun by lia.
    apply sample_throws in Hrun. destruct Hrun as [w0 Hw0].
    split; [| exists w0; exact Hw0].
    eapply getRandomBytes_throws_crypto. exact Hw0.
Qed.

(** C6 on the arguments 0 and [NaN], on a platform without a facility,
    and in a browser whose facility throws "Crypto generation failed". *)
Lemma crypto_errors_witness :
  let w := node (constant_tape Byte.x00) in
  let bare := World Bare (constant_tape Byte.x00) never_faults 0 0 in
  let failing :=
    World Browser (constant_tape Byte.x00) (always_faults "Crypto generation failed") 0 0 in
  getRandomBytes (of_Z 0) w
  = Throw (CryptoGenerationError "Random bytes length must be a positive integer") w /\
  getRandomInt 1 (VNumber NaN) w
  = Throw (CryptoGenerationError "Maximum value must be a positive integer") w /\
  getRandomBytes (of_Z 4) bare
  = Throw (CryptoGenerationError
             "Failed to generate random bytes: No secure crypto implementation available. Ensure you are in a supported environment.")
          bare /\
  (exists w',
     getRandomBytes (of_Z 4) failing
     = Throw (CryptoGenerationError
                "Failed to generate random bytes: Crypto generation failed") w') /\
  getRandomInt 1 (of_Z 62) bare
  = Throw (CryptoGenerationError
             "Failed to generate random bytes: No secure crypto implementation available. Ensure you are in a supported environment.")
          bare.
Proof.
  intros w bare failing.
  destruct (crypto_errors 1 w) as (Hbytes & Hint & _).
  destruct (crypto_errors 1 bare) as (_ & _ & Hbare & _).
  destruct (crypto_errors 1 failing) as (_ & _ & _ & Hfail & _).
  destruct (crypto_errors 0 bare) as (_ & _ & _ & _ & Hprop & _).
  split; [| split; [| split; [| split]]].
  - apply Hbytes. reflexivity.
  - apply Hint. reflexivity.
  - apply Hbare; reflexivity.
  - apply (Hfail (of_Z 4) "Crypto generation failed");
      [reflexivity | discriminate | reflexivity].
  - apply Hprop; [lia | reflexivity].
Defined.

(** ** The risk model *)

Section Risk.

Lemma generateWithInfo_safety Math_exp fuel arg w r w' :
  generateWithInfo Math_exp fuel arg w = Return r w' ->
  safety r
  = getSafetyLevel
      (calculateCollisionProbability Math_exp
         (integer_value (default_param arg (of_Z (DEFAULT_LENGTH CONSTANTS))))
         (inject_Z 100000)).
Proof.
  unfold generateWithInfo, bind, ret. intros Hrun.
  destruct (validateLength _ w) as [[] w1 | |]; try discriminate.
  destruct (generate fuel _ w1) as [id1 w2 | |]; try discriminate.
  injection Hrun as <- _. reflexivity.
Qed.

Lemma getSafetyLevel_cases (p : Q) :
  (Qlt p (1 # 1000) -> getSafetyLevel p = safe) /\
  (Qle (1 # 1000) p -> Qlt p (1 # 10) -> getSafetyLevel p = moderate) /\
  (Qle (1 # 10) p -> getSafetyLevel p = high_risk).
Proof.
  unfold getSafetyLevel, COLLISION_THRESHOLDS.moderate, COLLISION_THRESHOLDS.safe.
  destruct (Qle_bool (1 # 10) p) eqn:Hmod; destruct (Qle_bool (1 # 1000) p) eqn:Hsafe.
  all: try apply Qle_bool_iff in Hmod; try apply Qle_bool_iff in Hsafe.
  all: repeat apply conj; intros; try reflexivity; exfalso.
  all: try (apply (Qlt_not_le _ _ ltac:(eassumption)); assumption).
  all: try (assert (Hfalse : Qle_bool (1 # 1000) p = true)
              by (apply Qle_bool_iff; assumption); congruence).
  all: try (assert (Hfalse : Qle_bool (1 # 10) p = true)
              by (apply Qle_bool_iff; assumption); congruence).
  all: try (assert (Hfalse : Qle_bool (1 # 1000) p = true)
              by (apply Qle_bool_iff; apply Qle_trans with (1 # 10);
                  [discriminate | assumption]); congruence).
Qed.

End Risk.

(** C3.  A probability below 0.001 is [safe], one from 0.001 up to but
    not including 0.1 is [moderate], one of 0.1 or more is [high-risk];
    so 0 is safe, 0.001 is moderate and 0.1 is high-risk.  What
    [generateWithInfo] classifies is the probability itself, not the
    percentage it prints. *)
Theorem getSafetyLevel_thresholds :
  (forall p : Q,
     (Qlt p (1 # 1000) -> getSafetyLevel p = safe) /\
     (Qle (1 # 1000) p -> Qlt p (1 # 10) -> getSafetyLevel p = moderate) /\
     (Qle (1 # 10) p -> getSafetyLevel p = high_risk)) /\
  getSafetyLevel 0 = safe /\
  getSafetyLevel (1 # 1000) = moderate /\
  getSafetyLevel (1 # 10) = high_risk /\
  (forall Math_exp fuel arg w r w',
     generateWithInfo Math_exp fuel arg w = Return r w' ->
     safety r
     = getSafetyLevel
         (calculateCollisionProbability Math_exp
            (integer_value (default_param arg (of_Z (DEFAULT_LENGTH CONSTANTS))))
            (inject_Z 100000))).
Proof.
  split; [exact getSafetyLevel_cases |].
  repeat split. apply generateWithInfo_safety.
Qed.

(** C3 at the probabilities 0.0005, 0.05 and 0.5. *)
Lemma getSafetyLevel_thresholds_witness :
  getSafetyLevel (1 # 2000) = safe /\
  getSafetyLevel (1 # 20) = moderate /\
  getSafetyLevel (1 # 2) = high_risk.
Proof.
  destruct getSafetyLevel_thresholds as [Hall _].
  split; [| split].
  - apply (Hall (1 # 2000)). reflexivity.
  - apply (Hall (1 # 20)); [discriminate | reflexivity].
  - apply (Hall (1 # 2)). discriminate.
Defined.

(** ** The report for length 7 *)

Section Length7.

(** The exponential lies between [1 + x] and [1 / (1 - x)] for [x <= 0]. *)
Lemma exp_between (x : R) :
  (x <= 0)%R -> (1 + x <= exp x)%R /\ (exp x <= / (1 - x))%R.
Proof.
  intros Hx. split; [apply exp_ineq1_le |].
  rewrite <- (Ropp_involutive x) at 1. rewrite exp_Ropp.
  apply Rinv_le_contravar; [lra |].
  pose proof (exp_ineq1_le (- x)). lra.
Qed.

(** So a [Math.exp] within [exp_tolerance] of the exponential is
    [exp_accurate_at] every [x <= 0]. *)
Lemma exp_accurate_at_of_close (f : Q -> Q) (x : Q) :
  Qle x 0 ->
  (Rabs (Q2R (f x) - exp (Q2R x)) <= Q2R exp_tolerance)%R ->
  exp_accurate_at f x.
Proof.
  intros Hx Hclose.
  apply Qle_Rle in Hx. change (Q2R 0) with (Q2R (0 # 1)) in Hx.
  assert (H0 : Q2R (0 # 1) = 0%R) by (unfold Q2R; cbn; lra).
  rewrite H0 in Hx.
  destruct (exp_between (Q2R x) Hx) as [Hlo Hhi].
  assert (Hnear : (- Q2R exp_tolerance <= Q2R (f x) - exp (Q2R x) <= Q2R exp_tolerance)%R).
  { unfold Rabs in Hclose. destruct (Rcase_abs _) in Hclose; lra. }
  clear Hclose.
  unfold exp_accurate_at. split; apply Rle_Qle.
  - rewrite Q2R_minus, Q2R_plus, RMicromega.Q2R_1. lra.
  - rewrite Q2R_plus, Q2R_inv, Q2R_minus, RMicromega.Q2R_1; [lra |].
    intros Heq. apply Qeq_eqR in Heq.
    rewrite Q2R_minus, RMicromega.Q2R_1, H0 in Heq. lra.
Qed.

Lemma Qfloor_eq (y : Q) (n : Z) :
  Qle (inject_Z n) y -> Qlt y (inject_Z (n + 1)) -> Qfloor y = n.
Proof.
  intros Hlo Hhi.
  pose proof (Qfloor_le y) as Hf1. pose proof (Qlt_floor y) as Hf2.
  assert (H1 : (Qfloor y < n + 1)%Z).
  { rewrite Zlt_Qlt. eapply Qle_lt_trans; eassumption. }
  assert (H2 : (n < Qfloor y + 1)%Z).
  { rewrite Zlt_Qlt. eapply Qle_lt_trans; eassumption. }
  lia.
Qed.

Lemma toFixed_nonneg (f : nat) (a : Q) (n : Z) :
  Qle 0 a ->
  Qfloor (Qplus (Qmult a (inject_Z (10 ^ Z.of_nat f))) (1 # 2)) = n ->
  toFixed f a
  = digits (n / 10 ^ Z.of_nat f) +:+
    match f with
    | O => EmptyString
    | _ => "." +:+ pad_zeros f (digits (n mod 10 ^ Z.of_nat f))
    end.
Proof.
  intros Ha Hn. unfold toFixed.
  apply Qle_bool_iff in Ha. rewrite Ha. cbn [negb]. rewrite Hn. reflexivity.
Qed.

(** The probability for length 7 lies between 0.00141777 and 0.0014198. *)
Lemma probability_7 (Math_exp : Q -> Q) :
  exp_accurate_at Math_exp (exponent_of 7) ->
  let p := calculateCollisionProbability Math_exp 7 (inject_Z 100000) in
  Qle (141777 # 100000000) p /\ Qle p (14198 # 10000000).
Proof.
  intros [Hlo Hhi] p.
  change p with (Qminus 1 (Math_exp (exponent_of 7))). clear p.
  assert (Hlo' : Qle (9985802 # 10000000) (Math_exp (exponent_of 7))).
  { eapply Qle_trans; [| exact Hlo]. vm_compute. discriminate. }
  assert (Hhi' : Qle (Math_exp (exponent_of 7)) (99858223 # 100000000)).
  { eapply Qle_trans; [exact Hhi |]. vm_compute. discriminate. }
  clear Hlo Hhi. set (m := Math_exp (exponent_of 7)) in *. clearbody m.
  split; Lqa.lra.
Qed.

End Length7.

Section Report7.

Variables (Math_exp : Q -> Q) (fuel : nat) (w w' : world) (id7 : string).
Hypothesis generated : generate fuel (of_Z 7) w = Return id7 w'.

Lemma generateWithInfo_7_report :
  exp_accurate_at Math_exp (exponent_of 7) ->
  generateWithInfo Math_exp fuel (of_Z 7) w
  = Return {| id := id7;
              safety := moderate;
              collisionProbability := "0.142%";
              recommendation :=
                "Moderate collision risk. Consider increasing length for large-scale use." |}
           w'.
Proof.
  intros Hexp. pose proof generated as Hgen.
  destruct (probability_7 Math_exp Hexp) as [Hlo Hhi].
  unfold generateWithInfo, bind, ret.
  change (default_param (of_Z 7) (of_Z (DEFAULT_LENGTH CONSTANTS))) with (of_Z 7).
  rewrite (validateLength_valid (of_Z 7) 7 w eq_refl ltac:(lia)), Hgen.
  change (integer_value (of_Z 7)) with 7.
  set (p := calculateCollisionProbability Math_exp 7 (inject_Z 100000)) in *.
  assert (Hsafety : getSafetyLevel p = moderate).
  { apply getSafetyLevel_cases; [| apply Qle_lt_trans with (14198 # 10000000)];
      try assumption; [| reflexivity].
    apply Qle_trans with (141777 # 100000000); [discriminate | assumption]. }
  rewrite Hsafety.
  rewrite (toFixed_nonneg 3 (Qmult p (inject_Z 100)) 142).
  - reflexivity.
  - unfold inject_Z. Lqa.lra.
  - apply Qfloor_eq; change (10 ^ Z.of_nat 3) with 1000; unfold inject_Z;
      change (142 + 1) with 143; Lqa.lra.
Qed.


(** The same for a [Math.exp] within [exp_tolerance] of the exponential. *)
Lemma generateWithInfo_7_report_real :
  (Rabs (Q2R (Math_exp (exponent_of 7)) - exp (Q2R (exponent_of 7)))
   <= Q2R exp_tolerance)%R ->
  generateWithInfo Math_exp fuel (of_Z 7) w
  = Return {| id := id7;
              safety := moderate;
              collisionProbability := "0.142%";
              recommendation :=
                "Moderate collision risk. Consider increasing length for large-scale use." |}
           w'.
Proof.
  intros Hclose. apply generateWithInfo_7_report.
  apply exp_accurate_at_of_close; [discriminate | exact Hclose].
Qed.

End Report7.

(** C2, what the code does.  With a [Math.exp] as accurate as
    [exp_accurate_at] asks at the one argument used, and whenever
    [generate(7)] returns an identifier, [generateWithInfo(7)] returns it
    with the safety [moderate], the collision probability "0.142%" and
    the recommendation of the moderate tier, which holds no combination
    count: the probability [1 - e^(-(100000*99999)/(2*62^7))] is about
    0.00142, above the threshold 0.001 of [safe]. *)
Theorem generateWithInfo_7_is_moderate
    (Math_exp : Q -> Q) (fuel : nat) (w w' : world) (id7 : string) :
  exp_accurate_at Math_exp (exponent_of 7) ->
  generate fuel (of_Z 7) w = Return id7 w' ->
  generateWithInfo Math_exp fuel (of_Z 7) w
  = Return {| id := id7;
              safety := moderate;
              collisionProbability := "0.142%";
              recommendation :=
                "Moderate collision risk. Consider increasing length for large-scale use." |}
           w'.
Proof.
  intros Hexp Hgen. apply generateWithInfo_7_report; assumption.
Qed.

(** C2 with [Math.exp x] taken as [1 + x], on the all-zero stream. *)
Lemma generateWithInfo_7_is_moderate_witness :
  exp_accurate_at (fun x => Qplus 1 x) (exponent_of 7) /\
  generateWithInfo (fun x => Qplus 1 x) 1 (of_Z 7) (node (constant_tape Byte.x00))
  = Return {| id := "aaaaaaa";
              safety := moderate;
              collisionProbability := "0.142%";
              recommendation :=
                "Moderate collision risk. Consider increasing length for large-scale use." |}
           (after 7 1 (node (constant_tape Byte.x00))).
Proof.
  assert (Hexp : exp_accurate_at (fun x => Qplus 1 x) (exponent_of 7)).
  { split; vm_compute; discriminate. }
  split; [exact Hexp |].
  apply (generateWithInfo_7_is_moderate _ 1 _ _ _ Hexp).
  vm_compute. reflexivity.
Defined.

(** ** Configuration snapshots *)

Section Snapshots.

Import Config.

Lemma start_invariant : invariant start.
Proof.
  split; [reflexivity |]. intros r Hr. cbn in Hr. inversion Hr.
Qed.

Lemma mutate_frozen md r m (h : list object) o :
  h !! r = Some o -> frozen o = true -> snd (mutate md r m h) = h.
Proof.
  intros Hr Hfrozen. unfold mutate. rewrite Hr, Hfrozen. reflexivity.
Qed.

Lemma rejection_not_done md m o : rejection md m o <> Done.
Proof.
  destruct m as [k v | k v | k], md; cbn; try discriminate.
  all: destruct (props o !! k) as [u |]; try discriminate.
  all: destruct (same_value u v); discriminate.
Qed.

Lemma getConfig_invariant (s : session) :
  invariant s ->
  let '(r, h) := Config.getConfig (heap s) in
  (r ∉ snapshots s) /\
  r <> CONSTANTS_ref /\
  h !! r = Some (Obj (props_of CONSTANTS) true) /\
  h !! CONSTANTS_ref = Some (Obj (props_of CONSTANTS) false) /\
  forall r' o, heap s !! r' = Some o -> h !! r' = Some o.
Proof.
  intros [Hconst Hsnap]. unfold Config.getConfig, spread. rewrite Hconst.
  cbn [props].
  pose proof (lookup_lt_Some _ _ _ Hconst) as Hlen.
  assert (Hkeep : forall r' o, heap s !! r' = Some o ->
            (heap s ++ [Obj (props_of CONSTANTS) true]) !! r' = Some o).
  { intros r' o Hr'. rewrite lookup_app_l; [exact Hr' |].
    eapply lookup_lt_Some; exact Hr'. }
  split; [| split; [| split; [| split]]].
  - intros Hin. destruct (Hsnap _ Hin) as [_ Hlook].
    apply lookup_lt_Some in Hlook. lia.
  - unfold CONSTANTS_ref in *. lia.
  - apply list_lookup_middle. reflexivity.
  - apply Hkeep, Hconst.
  - exact Hkeep.
Qed.

Lemma step_invariant (s : session) (a : action) :
  invariant s -> invariant (step s a).
Proof.
  intros Hinv. destruct a as [| md i m]; cbn [step].
  - pose proof (getConfig_invariant s Hinv) as Hget.
    destruct (Config.getConfig (heap s)) as [r h].
    destruct Hget as (_ & Hne & Hnew & Hconst & Hkeep).
    destruct Hinv as [_ Hsnap].
    split; [exact Hconst |]. cbn [heap snapshots].
    intros r' Hin. apply elem_of_app in Hin. destruct Hin as [Hold | Hnow].
    + destruct (Hsnap _ Hold) as [Hne' Hlook]. split; [exact Hne' |].
      apply Hkeep, Hlook.
    + apply list_elem_of_singleton in Hnow. subst r'. split; assumption.
  - destruct (snapshots s !! i) as [r |] eqn:Hi; [| exact Hinv].
    destruct Hinv as [Hconst Hsnap].
    destruct (Hsnap r (list_elem_of_lookup_2 _ _ _ Hi)) as [Hne Hlook].
    rewrite (mutate_frozen md r m (heap s) _ Hlook eq_refl).
    split; assumption.
Qed.

Lemma run_invariant (acts : list action) : forall s,
  invariant s -> invariant (run acts s).
Proof.
  induction acts as [| a acts IH]; intros s Hinv; [exact Hinv |].
  apply IH, step_invariant, Hinv.
Qed.

(** After any history of calls and of mutation attempts on snapshots:
    the snapshots, the next one, and the charset. *)
Lemma sessions (acts : list action) :
  let s := run acts start in
  (forall r : nat, r ∈ snapshots s ->
     heap s !! r = Some (Obj (props_of CONSTANTS) true)) /\
  (forall md r m, r ∈ snapshots s ->
     mutate md r m (heap s)
     = (rejection md m (Obj (props_of CONSTANTS) true), heap s)) /\
  (forall md i m, heap (step s (Attempt md i m)) = heap s) /\
  (let '(r, h) := Config.getConfig (heap s) in
   (r ∉ snapshots s) /\ h !! r = Some (Obj (props_of CONSTANTS) true)) /\
  Config.getCharset (heap s) = Some (VString (CHARSET CONSTANTS)).
Proof.
  intros s.
  pose proof (run_invariant acts start start_invariant) as Hinv. fold s in Hinv.
  split; [| split; [| split; [| split]]].
  - intros r Hr. apply Hinv, Hr.
  - intros md r m Hr. destruct Hinv as [_ Hsnap].
    destruct (Hsnap r Hr) as [_ Hlook].
    unfold mutate. rewrite Hlook. reflexivity.
  - intros md i m. cbn [step].
    destruct (snapshots s !! i) as [r |] eqn:Hi; [| reflexivity].
    destruct Hinv as [_ Hsnap].
    destruct (Hsnap r (list_elem_of_lookup_2 _ _ _ Hi)) as [_ Hlook].
    cbn [heap]. apply (mutate_frozen md r m (heap s) _ Hlook eq_refl).
  - pose proof (getConfig_invariant s Hinv) as Hget.
    destruct (Config.getConfig (heap s)) as [r h].
    destruct Hget as (Hfresh & _ & Hnew & _). split; assumption.
  - destruct Hinv as [Hconst _]. unfold Config.getCharset.
    rewrite Hconst. reflexivity.
Qed.

End Snapshots.

(** C7.  After any history of [getConfig] calls and of attempts to
    assign, define or delete a property of a snapshot: every snapshot
    handed out still holds [DEFAULT_LENGTH = 7], [MIN_LENGTH = 7],
    [MAX_LENGTH = 32] and the charset, so any two of them are equal; an
    attempt on a snapshot leaves the heap as it is, being ignored or
    ending in a [TypeError]; the next [getConfig]
    returns a new frozen object with the same properties; and
    [getCharset()] returns the charset. *)
Theorem getConfig_snapshots (acts : list Config.action) :
  let s := Config.run acts Config.start in
  let config := Config.Obj (Config.props_of CONSTANTS) true in
  (forall r : nat, r ∈ Config.snapshots s -> Config.heap s !! r = Some config) /\
  (forall md r m, r ∈ Config.snapshots s ->
     Config.mutate md r m (Config.heap s)
     = (Config.rejection md m config, Config.heap s) /\
     Config.rejection md m config <> Config.Done) /\
  (forall md i m,
     Config.heap (Config.step s (Config.Attempt md i m)) = Config.heap s) /\
  (let '(r, h) := Config.getConfig (Config.heap s) in
   (r ∉ Config.snapshots s) /\ h !! r = Some config) /\
  Config.getCharset (Config.heap s) = Some (VString (CHARSET CONSTANTS)) /\
  Generator.getCharset = CHARSET CONSTANTS /\
  Config.props config !! "DEFAULT_LENGTH"%string = Some (of_Z 7) /\
  Config.props config !! "MIN_LENGTH"%string = Some (of_Z 7) /\
  Config.props config !! "MAX_LENGTH"%string = Some (of_Z 32) /\
  Config.props config !! "CHARSET"%string
  = Some (VString "abcdefghijklmnopqrstuvwxyzABCDEFGHIJKLMNOPQRSTUVWXYZ0123456789").
Proof.
  intros s config.
  destruct (sessions acts) as (Hsnap & Hmutate & Hattempt & Hnext & Hcharset).
  split; [exact Hsnap |]. split.
  { intros md r m Hr. split; [apply Hmutate, Hr | apply rejection_not_done]. }
  split; [exact Hattempt |].
  split; [exact Hnext |]. split; [exact Hcharset |].
  repeat split.
Qed.

(** C7 on a session that takes a snapshot, tries to overwrite
    [MIN_LENGTH] and to delete [CHARSET] in it, and takes another. *)
Lemma getConfig_snapshots_witness :
  let acts := [Config.CallGetConfig;
               Config.Attempt Config.Strict 0 (Config.Assign "MIN_LENGTH" VNull);
               Config.Attempt Config.Sloppy 0 (Config.Delete "CHARSET");
               Config.CallGetConfig] in
  let s := Config.run acts Config.start in
  Config.snapshots s = [1; 2]%nat /\
  Config.heap s !! 1%nat = Some (Config.Obj (Config.props_of CONSTANTS) true) /\
  Config.heap s !! 2%nat = Some (Config.Obj (Config.props_of CONSTANTS) true) /\
  Config.mutate Config.Sloppy 1
    (Config.DefineProperty "DEFAULT_LENGTH" (of_Z 10)) (Config.heap s)
  = (Config.TypeError, Config.heap s).
Proof.
  intros acts s.
  assert (Hs : Config.snapshots s = [1; 2]%nat) by (vm_compute; reflexivity).
  destruct (getConfig_snapshots acts) as (Hsnap & Hmutate & _).
  fold s in Hsnap, Hmutate. rewrite Hs in Hsnap, Hmutate.
  split; [exact Hs |].
  split; [apply Hsnap, list_elem_of_here |].
  split; [apply Hsnap, list_elem_of_further, list_elem_of_here |].
  apply (Hmutate Config.Sloppy 1%nat
           (Config.DefineProperty "DEFAULT_LENGTH" (of_Z 10))), list_elem_of_here.
Defined.

(** * Further properties of the code *)

Import Alphabet.

(** ** The random source *)

Section Source.

Lemma read_length w n : length (read w n) = n.
Proof.
  unfold read. rewrite List.length_map, List.length_seq. reflexivity.
Qed.

Lemma getRandomBytes_result (length : value) (n : Z) (w : world) :
  as_integer length = Some n -> 1 <= n ->
  (getCrypto w = inr (CryptoGenerationError
     "No secure crypto implementation available. Ensure you are in a supported environment.") /\
   getRandomBytes length w
   = Throw (CryptoGenerationError
              ("Failed to generate random bytes: " +:+
               "No secure crypto implementation available. Ensure you are in a supported environment."))
           w) \/
  (exists m, fault w (calls w) = Some m /\
     getRandomBytes length w
     = Throw (CryptoGenerationError ("Failed to generate random bytes: " +:+ m))
             (World (env w) (tape w) (fault w) (S (calls w)) (cursor w))) \/
  (fault w (calls w) = None /\
   getRandomBytes length w
   = Return (read w (Z.to_nat n))
            (World (env w) (tape w) (fault w) (S (calls w)) (cursor w + Z.to_nat n))).
Proof.
  intros Hint Hn. unfold getRandomBytes. rewrite Hint.
  destruct (Z.ltb_spec n 1); [lia |].
  unfold getCrypto, isBrowser, draw.
  destruct (env w); destruct (fault w (calls w)) as [m |]; eauto.
Qed.

End Source.

(** X1.  For a positive integer [n], [getRandomBytes(n)] either returns
    exactly [n] bytes, the next [n] of the stream, after one call of the
    facility, or throws a [CryptoGenerationError] and leaves the stream
    where it was. *)
Theorem getRandomBytes_all_or_nothing (length : value) (n : Z) (w : world) :
  as_integer length = Some n -> 1 <= n ->
  (forall bytes w',
     getRandomBytes length w = Return bytes w' ->
     Z.of_nat (List.length bytes) = n /\
     bytes = read w (Z.to_nat n) /\
     tape w' = tape w /\
     cursor w' = (cursor w + Z.to_nat n)%nat /\
     calls w' = S (calls w)) /\
  (forall e w',
     getRandomBytes length w = Throw e w' ->
     is_crypto_error e = true /\ tape w' = tape w /\ cursor w' = cursor w) /\
  getRandomBytes length w <> OutOfFuel.
Proof.
  intros Hint Hn.
  destruct (getRandomBytes_result length n w Hint Hn)
    as [[_ Hrun] | [(m & _ & Hrun) | [_ Hrun]]]; rewrite Hrun.
  - repeat apply conj; try discriminate.
    intros e w' Heq. injection Heq as <- <-. repeat split.
  - repeat apply conj; try discriminate.
    intros e w' Heq. injection Heq as <- <-. repeat split.
  - repeat apply conj; try discriminate.
    intros bytes w' Heq. injection Heq as <- <-. cbn.
    rewrite read_length. repeat split. lia.
Qed.

(** X1 for 16 bytes on a Node platform. *)
Lemma getRandomBytes_all_or_nothing_witness :
  as_integer (of_Z 16) = Some 16 /\ 1 <= 16 /\
  exists bytes w',
    getRandomBytes (of_Z 16) (node (constant_tape Byte.x2a)) = Return bytes w' /\
    Z.of_nat (List.length bytes) = 16 /\ cursor w' = 16%nat.
Proof.
  split; [reflexivity |]. split; [lia |].
  destruct (getRandomBytes_all_or_nothing (of_Z 16) 16
              (node (constant_tape Byte.x2a)) eq_refl ltac:(lia)) as (Hret & _ & _).
  assert (Hrun : getRandomBytes (of_Z 16) (node (constant_tape Byte.x2a))
                 = Return (read (node (constant_tape Byte.x2a)) 16)
                          (after 1 16 (node (constant_tape Byte.x2a))))
    by (vm_compute; reflexivity).
  destruct (Hret _ _ Hrun) as (Hlen & _ & _ & Hcur & _).
  eexists. eexists. split; [exact Hrun |]. split; [exact Hlen | exact Hcur].
Defined.

(** ** The sampler beyond the range of the charset *)

Section SamplerRange.




End SamplerRange.



(** X3.  When [max] is a power of two, [2^k] with [1 <= k <= 31], no
    draw is rejected: [getRandomInt] returns the masked value of its
    first draw, if the facility exists and that call does not throw. *)
Theorem getRandomInt_power_of_two (k : Z) (fuel : nat) (w : world) :
  1 <= k <= 31 ->
  env w <> Bare ->
  fault w (calls w) = None ->
  getRandomInt (S fuel) (of_Z (2 ^ k)) w
  = Return (masked_draw (2 ^ k) (tape w) (cursor w) 0)
           (after 1 (Z.to_nat (ceil_div8 k)) w).
Proof.
  intros Hk Henv Hfault.
  assert (Hpow : 2 <= 2 ^ k).
  { change 2 with (2 ^ 1) at 1. apply Z.pow_le_mono_r; lia. }
  assert (Hlog : ceil_log2 (2 ^ k) = k) by (apply Z.log2_up_pow2; lia).
  rewrite getRandomInt_sample by exact Hpow.
  unfold masked_draw, masked. rewrite Hlog, sample_S.
  rewrite getRandomBytes_ready;
    [| exact Henv | exact Hfault | unfold ceil_div8; apply Z.div_le_lower_bound; lia].
  pose proof (masked_value_range
                (chunk (tape w) (Z.to_nat (ceil_div8 k)) (cursor w) 0) k Hk) as Hr.
  destruct (Z.ltb_spec
              (band (combine (chunk (tape w) (Z.to_nat (ceil_div8 k)) (cursor w) 0))
                    (shl 1 k - 1)) (2 ^ k)); [reflexivity | lia].
Qed.

Lemma getRandomInt_power_of_two_witness :
  1 <= 4 <= 31 /\
  getRandomInt 1 (of_Z 16) (node (constant_tape Byte.xff))
  = Return 15 (after 1 1 (node (constant_tape Byte.xff))).
Proof.
  split; [lia |].
  apply (getRandomInt_power_of_two 4 0 (node (constant_tape Byte.xff)));
    [lia | discriminate | reflexivity].
Defined.

(** ** Entry points *)

Section EntryPoints.

Lemma default_param_idem (arg : value) :
  default_param (default_param arg (of_Z (DEFAULT_LENGTH CONSTANTS)))
                (of_Z (DEFAULT_LENGTH CONSTANTS))
  = default_param arg (of_Z (DEFAULT_LENGTH CONSTANTS)).
Proof. destruct arg; reflexivity. Qed.

(** [validateLength] returns or throws in the world it was called in. *)
Lemma validateLength_pure (length : value) (w : world) :
  validateLength length w = Return tt w \/
  exists m, validateLength length w = Throw (ZapidValidationError m) w.
Proof.
  unfold validateLength, throw, ret.
  destruct (as_integer length); [| eauto].
  destruct (_ <? _); [eauto |]. destruct (_ >? _); eauto.
Qed.

(** [generateWithInfo] is [generate] followed by the report. *)
Lemma generateWithInfo_unfold Math_exp fuel arg w :
  generateWithInfo Math_exp fuel arg w
  = match generate fuel arg w with
    | Return id0 w' =>
        let n := integer_value (default_param arg (of_Z (DEFAULT_LENGTH CONSTANTS))) in
        let probability := calculateCollisionProbability Math_exp n (inject_Z 100000) in
        Return {| id := id0;
                  safety := getSafetyLevel probability;
                  collisionProbability :=
                    toFixed 3 (Qmult probability (inject_Z 100)) +:+ "%";
                  recommendation := getRecommendation n (getSafetyLevel probability) |}
               w'
    | Throw e w' => Throw e w'
    | OutOfFuel => OutOfFuel
    end.
Proof.
  unfold generateWithInfo, bind.
  unfold generate at 1 2. unfold bind. rewrite default_param_idem.
  destruct (validateLength_pure
              (default_param arg (of_Z (DEFAULT_LENGTH CONSTANTS))) w)
    as [Hok | [m Hno]].
  - rewrite Hok. rewrite Hok.
    destruct (draw_chars _ _ _ w); reflexivity.
  - rewrite Hno. reflexivity.
Qed.

Lemma getRandomBytes_throw_form n w e w' :
  1 <= n ->
  getRandomBytes (of_Z n) w = Throw e w' ->
  (exists m, e = CryptoGenerationError ("Failed to generate random bytes: " +:+ m)) /\
  tape w' = tape w /\ cursor w' = cursor w.
Proof.
  intros Hn Hrun.
  destruct (getRandomBytes_result (of_Z n) n w (as_integer_of_Z n) Hn)
    as [[_ Heq] | [(m & _ & Heq) | [_ Heq]]]; rewrite Heq in Hrun;
    try discriminate; injection Hrun as <- <-; eauto.
Qed.

Lemma sample_throw_form max n mask fuel : forall w e w',
  1 <= n ->
  sample fuel max n mask w = Throw e w' ->
  (exists m, e = CryptoGenerationError ("Failed to generate random bytes: " +:+ m)) /\
  tape w' = tape w.
Proof.
  induction fuel as [| fuel IH]; intros w e w' Hn Hrun; [discriminate |].
  rewrite sample_S in Hrun.
  destruct (getRandomBytes (of_Z n) w) as [bytes w1 | e1 w1 |] eqn:Hbytes;
    try discriminate.
  - apply getRandomBytes_return in Hbytes; [| exact Hn]. destruct Hbytes as [_ ->].
    destruct (_ <? _); [discriminate |].
    apply IH in Hrun; [| exact Hn]. exact Hrun.
  - injection Hrun as <- <-.
    apply getRandomBytes_throw_form in Hbytes; [| exact Hn].
    destruct Hbytes as (Hm & Ht & _). split; assumption.
Qed.

Lemma draw_chars_throw_form fuel n : forall id0 w e w',
  draw_chars fuel n id0 w = Throw e w' ->
  (exists m, e = CryptoGenerationError ("Failed to generate random bytes: " +:+ m)) /\
  tape w' = tape w.
Proof.
  induction n as [| n IH]; intros id0 w e w' Hrun; [discriminate |].
  rewrite draw_chars_S in Hrun.
  destruct (getRandomInt fuel (of_Z charsetLength) w) as [i w1 | e1 w1 |] eqn:Hint;
    try discriminate.
  - apply getRandomInt_frame in Hint. destruct Hint as [Ht _].
    apply IH in Hrun. destruct Hrun as [Hm Ht']. split; [exact Hm | congruence].
  - injection Hrun as <- <-.
    rewrite getRandomInt_sample in Hint by (rewrite charsetLength_62; lia).
    apply sample_throw_form in Hint; [exact Hint |].
    apply bytesNeeded_pos. rewrite charsetLength_62. lia.
Qed.

Lemma generate_throw_form fuel arg w e w' :
  generate fuel arg w = Throw e w' ->
  (exists m, e = ZapidValidationError m /\ w' = w) \/
  (exists m, e = CryptoGenerationError ("Failed to generate random bytes: " +:+ m) /\
     tape w' = tape w).
Proof.
  unfold generate, bind. intros Hrun.
  destruct (validateLength_pure
              (default_param arg (of_Z (DEFAULT_LENGTH CONSTANTS))) w)
    as [Hok | [m Hno]].
  - right. rewrite Hok in Hrun. apply draw_chars_throw_form in Hrun.
    destruct Hrun as [[m Hm] Ht]. eauto.
  - left. rewrite Hno in Hrun. injection Hrun as <- <-. eauto.
Qed.

End EntryPoints.

(** X4.  [generate] and [generateWithInfo] throw only two kinds of
    error: a [ZapidValidationError], in the world the call started in,
    or the [CryptoGenerationError] that wraps a failure of the facility.
    The errors of the internal parameter checks ("Maximum value must be a
    positive integer", "Random bytes length must be a positive integer")
    never come out of them. *)
Theorem entry_points_errors
    (Math_exp : Q -> Q) (fuel : nat) (arg : value) (w w' : world) (e : error) :
  generate fuel arg w = Throw e w' \/
  generateWithInfo Math_exp fuel arg w = Throw e w' ->
  (exists m, e = ZapidValidationError m /\ w' = w) \/
  (exists m, e = CryptoGenerationError ("Failed to generate random bytes: " +:+ m) /\
     tape w' = tape w).
Proof.
  intros [Hrun | Hrun].
  - eapply generate_throw_form. exact Hrun.
  - rewrite generateWithInfo_unfold in Hrun.
    destruct (generate fuel arg w) as [id0 w1 | e1 w1 |] eqn:Hgen; try discriminate.
    injection Hrun as <- <-. eapply generate_throw_form. exact Hgen.
Qed.

(** X4 in a browser whose facility throws. *)
Lemma entry_points_errors_witness :
  let failing :=
    World Browser (constant_tape Byte.x00) (always_faults "Crypto generation failed") 0 0 in
  exists w',
    generate 1 (of_Z 7) failing
    = Throw (CryptoGenerationError
               "Failed to generate random bytes: Crypto generation failed") w' /\
    tape w' = tape failing.
Proof.
  intros failing.
  assert (Hrun : generate 1 (of_Z 7) failing
                 = Throw (CryptoGenerationError
                            "Failed to generate random bytes: Crypto generation failed")
                         (World Browser (constant_tape Byte.x00)
                            (always_faults "Crypto generation failed") 1 0))
    by (vm_compute; reflexivity).
  eexists. split; [exact Hrun |].
  destruct (entry_points_errors (fun x => x) 1 (of_Z 7) failing _ _ (or_introl Hrun))
    as [(m & Hm & _) | (m & _ & Ht)]; [discriminate | exact Ht].
Defined.

(** X5.  [generateWithInfo(length)] is [generate(length)] followed by
    the report: it returns exactly when [generate] does, with the
    identifier and in the world [generate] returns, and throws the error
    [generate] throws; its own first call of [validateLength] changes
    nothing. *)
Theorem generateWithInfo_is_generate_then_report
    (Math_exp : Q -> Q) (fuel : nat) (arg : value) (w : world) :
  (forall id0 w',
     generate fuel arg w = Return id0 w' ->
     exists r,
       generateWithInfo Math_exp fuel arg w = Return r w' /\ id r = id0) /\
  (forall r w',
     generateWithInfo Math_exp fuel arg w = Return r w' ->
     generate fuel arg w = Return (id r) w') /\
  (forall e w',
     generate fuel arg w = Throw e w' <->
     generateWithInfo Math_exp fuel arg w = Throw e w').
Proof.
  rewrite generateWithInfo_unfold.
  destruct (generate fuel arg w) as [id1 w1 | e1 w1 |].
  - split; [| split].
    + intros id0 w' Heq. injection Heq as <- <-. eexists. split; reflexivity.
    + intros r w' Heq. injection Heq as <- <-. reflexivity.
    + intros e w'. split; discriminate.
  - split; [| split]; try discriminate.
    intros e w'. split; intros Heq; injection Heq as <- <-; reflexivity.
  - split; [| split]; try discriminate. intros e w'. split; discriminate.
Qed.

Lemma generateWithInfo_is_generate_then_report_witness :
  exists r,
    generateWithInfo (fun x => Qplus 1 x) 1 (of_Z 8) (node (constant_tape Byte.x01))
    = Return r (after 8 1 (node (constant_tape Byte.x01))) /\
    id r = "bbbbbbbb"%string.
Proof.
  destruct (generateWithInfo_is_generate_then_report
              (fun x => Qplus 1 x) 1 (of_Z 8) (node (constant_tape Byte.x01)))
    as (Hfrom & _).
  apply Hfrom. vm_compute. reflexivity.
Defined.

(** X6.  With no argument, or [undefined], [generate] is [generate(7)]:
    the same outcome in every world, and every identifier it returns has
    7 characters of the charset. *)
Theorem generate_default_length (fuel : nat) (w : world) :
  generate fuel VUndefined w = generate fuel (of_Z 7) w /\
  forall id0 w',
    generate fuel VUndefined w = Return id0 w' ->
    String.length id0 = 7%nat /\
    List.Forall in_charset (list_ascii_of_string id0).
Proof.
  split; [reflexivity |].
  intros id0 w' Hrun.
  change (generate fuel VUndefined w) with (generate fuel (of_Z 7) w) in Hrun.
  rewrite (generate_valid fuel (of_Z 7) 7 w eq_refl ltac:(lia)) in Hrun.
  apply draw_chars_appends in Hrun.
  destruct Hrun as (suffix & -> & Hlen & Hall).
  change (EmptyString +:+ suffix) with suffix. split; assumption.
Qed.

Lemma generate_default_length_witness :
  generate 1 VUndefined (node (constant_tape Byte.x02))
  = Return "ccccccc" (after 7 1 (node (constant_tape Byte.x02))) /\
  String.length "ccccccc" = 7%nat.
Proof.
  assert (Hrun : generate 1 VUndefined (node (constant_tape Byte.x02))
                 = Return "ccccccc" (after 7 1 (node (constant_tape Byte.x02))))
    by (vm_compute; reflexivity).
  split; [exact Hrun |].
  destruct (generate_default_length 1 (node (constant_tape Byte.x02))) as [_ Hlen].
  apply (Hlen _ _ Hrun).
Defined.

(** ** Printed numbers *)

Section Printing.

Lemma uint_all_digits (d : Decimal.uint) :
  all_digits (NilEmpty.string_of_uint d) = true.
Proof.
  induction d; cbn [NilEmpty.string_of_uint all_digits]; try reflexivity;
    rewrite IHd; reflexivity.
Qed.

Lemma digits_text (n : Z) :
  digits n <> EmptyString /\ all_digits (digits n) = true.
Proof.
  unfold digits. generalize (N.to_uint (Z.to_N n)). intros d.
  split.
  - destruct d; cbn; discriminate.
  - destruct d; try apply (uint_all_digits (_ d)). reflexivity.
Qed.

Lemma frac_text (f : nat) (r : Z) :
  f = 2%nat \/ f = 3%nat ->
  0 <= r < 10 ^ Z.of_nat f ->
  String.length (pad_zeros f (digits r)) = f /\
  all_digits (pad_zeros f (digits r)) = true.
Proof.
  intros Hf Hr.
  assert (Hall : forallb (frac_ok f) (List.seq 0 (Z.to_nat (10 ^ Z.of_nat f))) = true).
  { destruct Hf as [-> | ->]; vm_compute; reflexivity. }
  rewrite forallb_forall in Hall.
  specialize (Hall (Z.to_nat r) ltac:(apply List.in_seq; lia)).
  unfold frac_ok in Hall. rewrite Z2Nat.id in Hall by lia.
  apply andb_prop in Hall.
  destruct Hall as [Hlen Hdig]. apply Nat.eqb_eq in Hlen. split; assumption.
Qed.

Lemma Qfloor_half_bounds (y : Q) :
  Qle (Qminus (inject_Z (Qfloor (Qplus y (1 # 2)))) (1 # 2)) y /\
  Qlt y (Qplus (inject_Z (Qfloor (Qplus y (1 # 2)))) (1 # 2)).
Proof.
  pose proof (Qfloor_le (Qplus y (1 # 2))) as Hlo.
  pose proof (Qlt_floor (Qplus y (1 # 2))) as Hhi.
  rewrite inject_Z_plus in Hhi. change (inject_Z 1) with 1%Q in Hhi.
  set (z := inject_Z (Qfloor (Qplus y (1 # 2)))) in *. clearbody z.
  split; Lqa.lra.
Qed.

(** [x.toFixed(f)], [f] being 2 or 3, on [x >= 0]: the digits of the
    integer [n] nearest to [x * 10^f], with a point before the last [f]. *)
Lemma toFixed_text (f : nat) (x : Q) :
  f = 2%nat \/ f = 3%nat ->
  Qle 0 x ->
  exists n : Z,
    0 <= n /\
    Qle (Qminus (inject_Z n) (1 # 2)) (Qmult x (inject_Z (10 ^ Z.of_nat f))) /\
    Qlt (Qmult x (inject_Z (10 ^ Z.of_nat f))) (Qplus (inject_Z n) (1 # 2)) /\
    toFixed f x
    = digits (n / 10 ^ Z.of_nat f) +:+ "." +:+
      pad_zeros f (digits (n mod 10 ^ Z.of_nat f)) /\
    fixed_point_text f (toFixed f x).
Proof.
  intros Hf Hx.
  set (n := Qfloor (Qplus (Qmult x (inject_Z (10 ^ Z.of_nat f))) (1 # 2))).
  assert (Hpow : 0 < 10 ^ Z.of_nat f) by (apply Z.pow_pos_nonneg; lia).
  assert (Hn : 0 <= n).
  { change 0 with (Qfloor (inject_Z 0)). apply Qfloor_resp_le.
    assert (Hprod : Qle 0 (Qmult x (inject_Z (10 ^ Z.of_nat f)))).
    { apply Qmult_le_0_compat; [exact Hx |].
      change 0%Q with (inject_Z 0). rewrite <- Zle_Qle. lia. }
    change (inject_Z 0) with 0%Q. Lqa.lra. }
  assert (Htext : toFixed f x
                  = digits (n / 10 ^ Z.of_nat f) +:+ "." +:+
                    pad_zeros f (digits (n mod 10 ^ Z.of_nat f))).
  { rewrite (toFixed_nonneg f x n Hx eq_refl).
    destruct Hf as [-> | ->]; reflexivity. }
  exists n. split; [exact Hn |].
  destruct (Qfloor_half_bounds (Qmult x (inject_Z (10 ^ Z.of_nat f)))) as [Hlo Hhi].
  fold n in Hlo, Hhi.
  split; [exact Hlo |]. split; [exact Hhi |]. split; [exact Htext |].
  rewrite Htext.
  exists (digits (n / 10 ^ Z.of_nat f)),
         (pad_zeros f (digits (n mod 10 ^ Z.of_nat f))).
  destruct (digits_text (n / 10 ^ Z.of_nat f)) as [Hne Hdig].
  destruct (frac_text f (n mod 10 ^ Z.of_nat f) Hf
              (Z.mod_pos_bound n _ Hpow)) as [Hlen Hfrac].
  repeat split; assumption.
Qed.

End Printing.

(** X7.  When [generateWithInfo] returns and [Math.exp] gave at most 1 at
    the (negative) exponent, the [collisionProbability] field is
    [<digits>.<3 digits>%]: the digits of the integer [k] nearest to
    1000 times the percentage (the larger on a tie), with a point before
    the last three. *)
Theorem collisionProbability_text
    (Math_exp : Q -> Q) (fuel : nat) (arg : value) (w w' : world) (r : ZapidResult) :
  let n := integer_value (default_param arg (of_Z (DEFAULT_LENGTH CONSTANTS))) in
  let percentage :=
    Qmult (calculateCollisionProbability Math_exp n (inject_Z 100000)) (inject_Z 100) in
  generateWithInfo Math_exp fuel arg w = Return r w' ->
  Qle (Math_exp (exponent_of n)) 1 ->
  exists (t : string) (k : Z),
    collisionProbability r = t +:+ "%" /\
    fixed_point_text 3 t /\
    t = digits (k / 1000) +:+ "." +:+ pad_zeros 3 (digits (k mod 1000)) /\
    0 <= k /\
    Qle (Qminus (inject_Z k) (1 # 2)) (Qmult percentage (inject_Z 1000)) /\
    Qlt (Qmult percentage (inject_Z 1000)) (Qplus (inject_Z k) (1 # 2)).
Proof.
  intros n percentage Hrun Hexp.
  rewrite generateWithInfo_unfold in Hrun.
  destruct (generate fuel arg w) as [id0 w1 | |]; try discriminate.
  injection Hrun as <- _. cbn [collisionProbability]. fold n. fold percentage.
  assert (Hpos : Qle 0 percentage).
  { unfold percentage.
    change (calculateCollisionProbability Math_exp n (inject_Z 100000))
      with (Qminus 1 (Math_exp (exponent_of n))).
    set (m := Math_exp (exponent_of n)) in *. clearbody m.
    unfold inject_Z. Lqa.lra. }
  destruct (toFixed_text 3 percentage (or_intror eq_refl) Hpos)
    as (k & Hk & Hlo & Hhi & Htext & Hform).
  exists (toFixed 3 percentage), k.
  split; [reflexivity |]. split; [exact Hform |].
  split; [exact Htext |]. split; [exact Hk |]. split; assumption.
Qed.

(** X7 at length 12, with [Math.exp x] taken as [1 + x]. *)
Lemma collisionProbability_text_witness :
  exists (r : ZapidResult) (t : string),
    generateWithInfo (fun x => Qplus 1 x) 1 (of_Z 12) (node (constant_tape Byte.x00))
    = Return r (after 12 1 (node (constant_tape Byte.x00))) /\
    collisionProbability r = "0.000%"%string /\
    collisionProbability r = t +:+ "%" /\ fixed_point_text 3 t.
Proof.
  eexists. 
  assert (Hrun : generateWithInfo (fun x => Qplus 1 x) 1 (of_Z 12)
                   (node (constant_tape Byte.x00))
                 = Return {| id := "aaaaaaaaaaaa";
                             safety := safe;
                             collisionProbability := "0.000%";
                             recommendation :=
                               "Safe for up to 100k IDs. Total possible combinations: 3.23e+21" |}
                          (after 12 1 (node (constant_tape Byte.x00))))
    by (vm_compute; reflexivity).
  destruct (collisionProbability_text _ _ _ _ _ _ Hrun) as (t & k & Ht & Hform & _).
  { vm_compute. discriminate. }
  exists t. split; [exact Hrun |]. split; [reflexivity |]. split; assumption.
Defined.

(** X8.  For a byte count [0 <= bytes < 1024 * 10^21], [formatSize]
    prints [<digits>.<2 digits> KB]: the digits of the integer [k]
    nearest to [100 * bytes / 1024] (the larger on a tie), with a point
    before the last two. *)
Theorem formatSize_text (bytes : Z) :
  0 <= bytes < 1024 * 10 ^ 21 ->
  exists (t : string) (k : Z),
    SizeCheck.formatSize bytes = t +:+ " KB" /\
    fixed_point_text 2 t /\
    t = digits (k / 100) +:+ "." +:+ pad_zeros 2 (digits (k mod 100)) /\
    1024 * k - 512 <= 100 * bytes < 1024 * k + 512.
Proof.
  intros Hbytes. unfold SizeCheck.formatSize.
  set (x := Qdiv (inject_Z bytes) (inject_Z 1024)).
  assert (Hx : Qeq (Qmult x (inject_Z 1024)) (inject_Z bytes)).
  { unfold x. field. }
  assert (Hb : Qle 0 (inject_Z bytes)).
  { change 0%Q with (inject_Z 0). rewrite <- Zle_Qle. lia. }
  assert (Hpos : Qle 0 x).
  { set (b := inject_Z bytes) in *. clearbody b x. unfold inject_Z in Hx. Lqa.lra. }
  destruct (toFixed_text 2 x (or_introl eq_refl) Hpos)
    as (k & Hk & Hlo & Hhi & Htext & Hform).
  exists (toFixed 2 x), k.
  split; [reflexivity |]. split; [exact Hform |]. split; [exact Htext |].
  change (10 ^ Z.of_nat 2) with 100 in Hlo, Hhi.
  assert (Hlo' : Qle (inject_Z (1024 * k)) (inject_Z (100 * bytes + 512))).
  { rewrite inject_Z_plus, !inject_Z_mult.
    set (b := inject_Z bytes) in *. set (q := inject_Z k) in *.
    clearbody b q x. unfold inject_Z in *. Lqa.lra. }
  assert (Hhi' : Qlt (inject_Z (100 * bytes)) (inject_Z (1024 * k + 512))).
  { rewrite inject_Z_plus, !inject_Z_mult.
    set (b := inject_Z bytes) in *. set (q := inject_Z k) in *.
    clearbody b q x. unfold inject_Z in *. Lqa.lra. }
  rewrite <- Zle_Qle in Hlo'. rewrite <- Zlt_Qlt in Hhi'. lia.
Qed.

(** X8 at 3200 bytes, a tie: 3.125 KB is printed 3.13 KB. *)
Lemma formatSize_text_witness :
  0 <= 3200 < 1024 * 10 ^ 21 /\
  SizeCheck.formatSize 3200 = "3.13 KB"%string /\
  exists (t : string) (k : Z),
    SizeCheck.formatSize 3200 = t +:+ " KB" /\
    1024 * k - 512 <= 100 * 3200 < 1024 * k + 512.
Proof.
  split; [lia |]. split; [vm_compute; reflexivity |].
  destruct (formatSize_text 3200 ltac:(lia)) as (t & k & Ht & _ & _ & Hk).
  exists t, k. split; assumption.
Defined.

(** ** The tiers of the valid lengths *)

Section Tiers.

Lemma generate_returns_valid fuel arg w id0 w' :
  generate fuel arg w = Return id0 w' ->
  exists n,
    as_integer (default_param arg (of_Z (DEFAULT_LENGTH CONSTANTS))) = Some n /\
    7 <= n <= 32.
Proof.
  unfold generate, bind, validateLength, throw, ret. intros Hrun.
  destruct (as_integer _) as [n |]; [| discriminate].
  cbn [MIN_LENGTH MAX_LENGTH CONSTANTS] in Hrun.
  destruct (Z.ltb_spec n 7); [discriminate |].
  destruct (Z.gtb_spec n 32); [discriminate |].
  exists n. split; [reflexivity | lia].
Qed.

Lemma exponent_small (n : Z) :
  8 <= n <= 32 -> Qle (Qopp (exponent_of n)) (23 # 1000000).
Proof.
  intros Hn.
  assert (Hall : forallb (fun k => Qle_bool (Qopp (exponent_of (Z.of_nat k)))
                                            (23 # 1000000))
                         (List.seq 8 25) = true) by (vm_compute; reflexivity).
  rewrite forallb_forall in Hall.
  specialize (Hall (Z.to_nat n) ltac:(apply List.in_seq; lia)).
  rewrite Z2Nat.id in Hall by lia. apply Qle_bool_iff. exact Hall.
Qed.

Lemma safe_from_8 (Math_exp : Q -> Q) (n : Z) :
  8 <= n <= 32 ->
  exp_accurate_at Math_exp (exponent_of n) ->
  getSafetyLevel (calculateCollisionProbability Math_exp n (inject_Z 100000)) = safe.
Proof.
  intros Hn [Hlo _]. apply getSafetyLevel_cases.
  change (calculateCollisionProbability Math_exp n (inject_Z 100000))
    with (Qminus 1 (Math_exp (exponent_of n))).
  pose proof (exponent_small n Hn) as Hx.
  unfold exp_tolerance in Hlo.
  set (m := Math_exp (exponent_of n)) in *. set (x := exponent_of n) in *.
  clearbody m x. Lqa.lra.
Qed.

End Tiers.

(** X9.  Every length from 8 to 32 is in the tier [safe], whatever the
    identifier: when [generateWithInfo] returns for such a length (with a
    [Math.exp] as accurate as [exp_accurate_at] asks), the safety is
    [safe] and the recommendation is the sentence of that tier followed
    by the combination count [62^length] in exponential notation.  With
    C2, length 7 is the only valid length outside this tier. *)
Theorem lengths_from_8_are_safe
    (Math_exp : Q -> Q) (fuel : nat) (arg : value) (w w' : world) (r : ZapidResult) :
  let n := integer_value (default_param arg (of_Z (DEFAULT_LENGTH CONSTANTS))) in
  generateWithInfo Math_exp fuel arg w = Return r w' ->
  8 <= n ->
  exp_accurate_at Math_exp (exponent_of n) ->
  n <= 32 /\
  safety r = safe /\
  recommendation r
  = "Safe for up to 100k IDs. Total possible combinations: " +:+
    toExponential 2 (62 ^ n).
Proof.
  intros n Hrun Hn Hexp.
  rewrite generateWithInfo_unfold in Hrun.
  destruct (generate fuel arg w) as [id0 w1 | |] eqn:Hgen; try discriminate.
  apply generate_returns_valid in Hgen. destruct Hgen as (k & Hint & Hk).
  assert (Hnk : n = k) by (unfold n, integer_value; rewrite Hint; reflexivity).
  assert (Hrange : 8 <= n <= 32) by lia.
  pose proof (safe_from_8 Math_exp n Hrange Hexp) as Hsafe.
  injection Hrun as <- _.
  split; [lia |]. split; [exact Hsafe |].
  change (getRecommendation n
            (getSafetyLevel (calculateCollisionProbability Math_exp n (inject_Z 100000)))
          = "Safe for up to 100k IDs. Total possible combinations: " +:+
            toExponential 2 (62 ^ n)).
  rewrite Hsafe. reflexivity.
Qed.

(** X9 at length 8, with [Math.exp x] taken as [1 + x]. *)
Lemma lengths_from_8_are_safe_witness :
  exists r,
    generateWithInfo (fun x => Qplus 1 x) 1 (of_Z 8) (node (constant_tape Byte.x00))
    = Return r (after 8 1 (node (constant_tape Byte.x00))) /\
    safety r = safe /\
    recommendation r
    = "Safe for up to 100k IDs. Total possible combinations: 2.18e+14"%string.
Proof.
  eexists.
  assert (Hrun : generateWithInfo (fun x => Qplus 1 x) 1 (of_Z 8)
                   (node (constant_tape Byte.x00))
                 = Return {| id := "aaaaaaaa";
                             safety := safe;
                             collisionProbability := "0.002%";
                             recommendation :=
                               "Safe for up to 100k IDs. Total possible combinations: 2.18e+14" |}
                          (after 8 1 (node (constant_tape Byte.x00))))
    by (vm_compute; reflexivity).
  split; [exact Hrun |].
  destruct (lengths_from_8_are_safe _ _ _ _ _ _ Hrun) as (_ & Hsafe & Hrec).
  - vm_compute. discriminate.
  - split; vm_compute; discriminate.
  - split; [exact Hsafe | exact Hrec].
Defined.

(** ** The identifier as a function of the bytes *)

Section Spelling.

Lemma map_seq_from {A} (f : nat -> A) (a b : nat) :
  List.map f (List.seq a b) = List.map (fun i => f (a + i)%nat) (List.seq 0 b).
Proof.
  revert a f. induction b as [| b IH]; intros a f; [reflexivity |].
  cbn [List.seq List.map]. rewrite Nat.add_0_r. f_equal.
  rewrite (IH (S a) f), (IH 1%nat (fun i => f (a + i)%nat)).
  apply List.map_ext. intros i. f_equal. lia.
Qed.

Lemma read_app w a b : read w (a + b) = read w a ++ read (after a 1 w) b.
Proof.
  unfold read. rewrite List.seq_app, List.map_app. f_equal.
  cbn [Nat.add]. rewrite map_seq_from. cbn [after tape cursor].
  apply List.map_ext. intros i. f_equal. lia.
Qed.

Lemma read_one w : read w 1 = [tape w (cursor w)].
Proof.
  unfold read. cbn [List.seq List.map]. rewrite Nat.add_0_r. reflexivity.
Qed.

Lemma id_of_bytes_app bs1 bs2 :
  id_of_bytes (bs1 ++ bs2) = id_of_bytes bs1 +:+ id_of_bytes bs2.
Proof.
  induction bs1 as [| b bs1 IH]; [reflexivity |].
  cbn [app id_of_bytes]. destruct (accepted b); [| exact IH].
  rewrite IH, append_assoc. reflexivity.
Qed.

Lemma bytesNeeded_charset : Z.to_nat (ceil_div8 (ceil_log2 charsetLength)) = 1%nat.
Proof. reflexivity. Qed.

(** One run of the loop for the charset: rejected bytes, then the
    accepted one. *)
Lemma sample_charset fuel : forall w v w',
  sample fuel charsetLength (ceil_div8 (ceil_log2 charsetLength))
         (shl 1 (ceil_log2 charsetLength) - 1) w = Return v w' ->
  exists (k : nat) (b : Byte.byte),
    w' = after (S k) 1 w /\
    read w (S k) = read w k ++ [b] /\
    List.filter accepted (read w k) = [] /\
    accepted b = true /\ v = index_of b.
Proof.
  induction fuel as [| fuel IH]; intros w v w' Hrun; [discriminate |].
  rewrite sample_S in Hrun.
  destruct (getRandomBytes _ w) as [bytes w1 | e w1 |] eqn:Hbytes; try discriminate.
  apply getRandomBytes_return in Hbytes; [| apply bytesNeeded_pos; rewrite charsetLength_62; lia].
  rewrite bytesNeeded_charset in Hbytes. destruct Hbytes as [-> ->].
  rewrite <- read_chunk, read_one in Hrun.
  fold (index_of (tape w (cursor w))) in Hrun.
  destruct (index_of (tape w (cursor w)) <? charsetLength) eqn:Hacc.
  - injection Hrun as <- <-. exists 0%nat, (tape w (cursor w)).
    split; [reflexivity |]. split; [apply read_one |].
    split; [reflexivity |]. split; [exact Hacc | reflexivity].
  - apply IH in Hrun. destruct Hrun as (k & b & -> & Hread & Hrej & Hb & Hv).
    exists (S k), b. split; [apply after_after |].
    change (S (S k)) with (1 + S k)%nat. change (S k) with (1 + k)%nat at 2 3.
    rewrite !read_app, read_one, Hread.
    split; [rewrite <- List.app_assoc; reflexivity |].
    split; [| split; assumption].
    cbn [app List.filter]. unfold accepted at 1. rewrite Hacc. exact Hrej.
Qed.

Lemma getRandomInt_charset fuel w v w' :
  getRandomInt fuel (of_Z charsetLength) w = Return v w' ->
  exists (k : nat) (b : Byte.byte),
    w' = after (S k) 1 w /\
    read w (S k) = read w k ++ [b] /\
    List.filter accepted (read w k) = [] /\
    accepted b = true /\ v = index_of b.
Proof.
  intros Hrun. rewrite getRandomInt_sample in Hrun by (rewrite charsetLength_62; lia).
  apply sample_charset in Hrun. exact Hrun.
Qed.

Lemma id_of_rejected bs : List.filter accepted bs = [] -> id_of_bytes bs = EmptyString.
Proof.
  induction bs as [| b bs IH]; [reflexivity |].
  cbn [List.filter id_of_bytes]. destruct (accepted b); [discriminate | exact IH].
Qed.

(** The loop of [generate]: what it appends is spelled by the bytes it
    consumed, [n] of which are accepted, the last one among them. *)
Lemma draw_chars_spells fuel n : forall id0 w id1 w',
  draw_chars fuel n id0 w = Return id1 w' ->
  exists d : nat,
    w' = after d 1 w /\
    id1 = id0 +:+ id_of_bytes (read w d) /\
    List.length (List.filter accepted (read w d)) = n /\
    (n = 0%nat -> d = 0%nat) /\
    ((0 < n)%nat -> exists bs b, read w d = bs ++ [b] /\ accepted b = true).
Proof.
  induction n as [| n IH]; intros id0 w id1 w' Hrun.
  - injection Hrun as <- <-. exists 0%nat.
    split; [unfold after; destruct w; cbn; f_equal; lia |].
    split; [apply append_empty |]. split; [reflexivity |].
    split; [reflexivity | lia].
  - rewrite draw_chars_S in Hrun.
    destruct (getRandomInt fuel (of_Z charsetLength) w) as [i w1 | |] eqn:Hint;
      try discriminate.
    apply getRandomInt_charset in Hint.
    destruct Hint as (k & b & -> & Hread & Hrej & Hb & ->).
    apply IH in Hrun. destruct Hrun as (d & -> & -> & Hcount & Hzero & Hlast).
    exists (S k + d)%nat.
    assert (Hone : id_of_bytes (read w (S k))
                   = char_at (CHARSET CONSTANTS) (index_of b)).
    { rewrite Hread, id_of_bytes_app, (id_of_rejected _ Hrej).
      cbn [id_of_bytes]. rewrite Hb. symmetry. apply append_empty. }
    split; [unfold after; cbn; f_equal; lia |].
    rewrite read_app, id_of_bytes_app, Hone, List.filter_app, List.length_app, Hcount.
    split; [apply append_assoc |].
    split.
    { rewrite Hread, List.filter_app, Hrej. cbn [app List.filter]. rewrite Hb.
      reflexivity. }
    split; [discriminate |]. intros _.
    destruct n as [| n].
    + rewrite (Hzero eq_refl). exists (read w k), b.
      split; [| exact Hb]. cbn [read List.seq List.map]. rewrite List.app_nil_r. exact Hread.
    + destruct (Hlast ltac:(lia)) as (bs & b' & Hbs & Hb').
      exists (read w (S k) ++ bs), b'. rewrite Hbs, List.app_assoc. split; [reflexivity | exact Hb'].
Qed.

End Spelling.

(** X10.  The identifier [generate] returns is spelled by the bytes it
    consumed: byte by byte, [b & 63] below 62 gives the character of that
    index in the charset, anything else gives nothing.  Exactly [length]
    of the consumed bytes are accepted, the last one is, and each byte
    costs one call of the facility. *)
Theorem generate_spells_consumed_bytes
    (fuel : nat) (length : value) (w w' : world) (id0 : string) :
  generate fuel length w = Return id0 w' ->
  let bs := read w (cursor w' - cursor w) in
  id0 = id_of_bytes bs /\
  Z.of_nat (List.length (List.filter accepted bs))
  = integer_value (default_param length (of_Z (DEFAULT_LENGTH CONSTANTS))) /\
  (exists bs0 b, bs = bs0 ++ [b] /\ accepted b = true) /\
  (calls w' - calls w = cursor w' - cursor w)%nat /\
  (forall b, index_of b = Z.land (byte_value b) 63).
Proof.
  intros Hrun bs.
  pose proof (generate_returns_valid _ _ _ _ _ Hrun) as (n & Hint & Hn).
  assert (Hiv : integer_value (default_param length (of_Z (DEFAULT_LENGTH CONSTANTS))) = n)
    by (unfold integer_value; rewrite Hint; reflexivity).
  apply generate_draw_chars in Hrun. rewrite Hiv in Hrun.
  apply draw_chars_spells in Hrun.
  destruct Hrun as (d & -> & Hid & Hcount & _ & Hlast).
  assert (Hd : (cursor (after d 1 w) - cursor w)%nat = d) by (cbn; lia).
  unfold bs. rewrite Hd, Hiv.
  split; [exact Hid |].
  split; [rewrite Hcount; lia |].
  split; [apply Hlast; lia |].
  split; [cbn; lia |].
  intros b. destruct b; reflexivity.
Qed.

(** X10 on a stream that starts with a rejected byte: ff 00 01 02 ... *)
Lemma generate_spells_consumed_bytes_witness :
  let w := node (fun i => match Byte.of_N (N.of_nat (i + 255)) with
                          | Some b => b
                          | None => match Byte.of_N (N.of_nat (i - 1)) with
                                    | Some b => b
                                    | None => Byte.x00
                                    end
                          end) in
  generate 2 (of_Z 7) w = Return "abcdefg" (after 8 1 w) /\
  "abcdefg"%string = id_of_bytes (read w 8) /\
  List.length (List.filter accepted (read w 8)) = 7%nat.
Proof.
  intros w.
  assert (Hrun : generate 2 (of_Z 7) w = Return "abcdefg" (after 8 1 w))
    by (vm_compute; reflexivity).
  split; [exact Hrun |].
  destruct (generate_spells_consumed_bytes _ _ _ _ _ Hrun) as (Hid & Hcount & _).
  split; [exact Hid |].
  apply Nat2Z.inj. exact Hcount.
Defined.

(** ** No modulo bias on the charset *)

Section Bias.

Lemma all_bytes_nth (b : Byte.byte) :
  List.nth (N.to_nat (Byte.to_N b)) all_bytes Byte.x00 = b.
Proof. destruct b; reflexivity. Qed.

Lemma all_bytes_complete (b : Byte.byte) : List.In b all_bytes.
Proof.
  rewrite <- (all_bytes_nth b). apply List.nth_In.
  pose proof (Byte.to_N_bounded b).
  change (List.length all_bytes) with 256%nat. lia.
Qed.

Lemma all_bytes_NoDup : List.NoDup all_bytes.
Proof.
  apply (List.NoDup_map_inv Byte.to_N).
  replace (List.map Byte.to_N all_bytes) with (List.map N.of_nat (List.seq 0 256))
    by (vm_compute; reflexivity).
  apply Finite.Injective_map_NoDup; [| apply List.seq_NoDup].
  intros x y Hxy. lia.
Qed.

Lemma index_counts (v : Z) :
  0 <= v < charsetLength ->
  List.length (List.filter (fun b => index_of b =? v) all_bytes) = 4%nat.
Proof.
  intros Hv. rewrite charsetLength_62 in Hv.
  assert (Hall : forallb
            (fun k => (List.length
                         (List.filter (fun b => (index_of b =? Z.of_nat k)%Z) all_bytes)
                       =? 4)%nat)
            (List.seq 0 62) = true) by (vm_compute; reflexivity).
  rewrite forallb_forall in Hall.
  specialize (Hall (Z.to_nat v) ltac:(apply List.in_seq; lia)).
  rewrite Z2Nat.id in Hall by lia. apply Nat.eqb_eq. exact Hall.
Qed.

End Bias.

(** X11.  Among the 256 values a byte can take, each listed once,
    exactly 4 give each index from 0 to 61 of the charset and exactly 8
    are rejected: on uniform bytes every character is equally likely,
    and a draw is rejected with probability 1/32. *)
Theorem charset_indices_unbiased :
  (forall b : Byte.byte, List.In b all_bytes) /\
  List.NoDup all_bytes /\
  List.length all_bytes = 256%nat /\
  (forall v : Z,
     0 <= v < charsetLength ->
     List.length (List.filter (fun b => index_of b =? v) all_bytes) = 4%nat) /\
  List.length (List.filter (fun b => negb (accepted b)) all_bytes) = 8%nat.
Proof.
  split; [exact all_bytes_complete |].
  split; [exact all_bytes_NoDup |].
  split; [reflexivity |].
  split; [exact index_counts |].
  vm_compute. reflexivity.
Qed.

(** X11 at the index 61 (the character [9]). *)
Lemma charset_indices_unbiased_witness :
  0 <= 61 < charsetLength /\
  List.filter (fun b => index_of b =? 61) all_bytes
  = [Byte.x3d; Byte.x7d; Byte.xbd; Byte.xfd] /\
  List.length (List.filter (fun b => index_of b =? 61) all_bytes) = 4%nat.
Proof.
  destruct charset_indices_unbiased as (_ & _ & _ & Hcount & _).
  split; [vm_compute; split; [discriminate | reflexivity] |].
  split; [vm_compute; reflexivity |].
  apply Hcount. vm_compute. split; [discriminate | reflexivity].
Defined.

(** ** The charset *)

Section Charset.

Lemma charset_NoDup : List.NoDup (list_ascii_of_string (CHARSET CONSTANTS)).
Proof.
  apply NoDup_ListNoDup. apply (bool_decide_unpack _). vm_compute. exact I.
Qed.

Lemma get_nth_error (s : string) : forall n,
  String.get n s = List.nth_error (list_ascii_of_string s) n.
Proof.
  induction s as [| c s IH]; intros [| n]; cbn; try reflexivity. apply IH.
Qed.

Lemma char_at_get (i : Z) :
  0 <= i < charsetLength ->
  exists c,
    String.get (Z.to_nat i) (CHARSET CONSTANTS) = Some c /\
    char_at (CHARSET CONSTANTS) i = String c EmptyString.
Proof.
  intros Hi. unfold char_at. destruct (Z.ltb_spec i 0); [lia |].
  destruct (get_in (Z.to_nat i) (CHARSET CONSTANTS)) as (c & Hget & _).
  { unfold charsetLength in Hi. lia. }
  rewrite Hget. exists c. split; reflexivity.
Qed.

Lemma char_at_injective (i j : Z) :
  0 <= i < charsetLength -> 0 <= j < charsetLength ->
  char_at (CHARSET CONSTANTS) i = char_at (CHARSET CONSTANTS) j -> i = j.
Proof.
  intros Hi Hj Heq.
  destruct (char_at_get i Hi) as (c & Hgi & Hci).
  destruct (char_at_get j Hj) as (d & Hgj & Hcj).
  rewrite Hci, Hcj in Heq. injection Heq as <-.
  rewrite get_nth_error in Hgi, Hgj.
  pose proof charset_NoDup as Hnd. rewrite List.NoDup_nth_error in Hnd.
  assert (Hij : Z.to_nat i = Z.to_nat j).
  { apply Hnd; [| congruence].
    rewrite chars_length. unfold charsetLength in Hi. lia. }
  lia.
Qed.

End Charset.

(** X12.  The charset has 62 characters, all different, each a letter or
    a digit; so two different indices of [0..61] give two different
    characters, and an index out of that range gives the text
    [undefined] instead of a character. *)
Theorem charset_characters :
  String.length (CHARSET CONSTANTS) = 62%nat /\
  List.NoDup (list_ascii_of_string (CHARSET CONSTANTS)) /\
  List.forallb is_alphanumeric (list_ascii_of_string (CHARSET CONSTANTS)) = true /\
  (forall i j : Z,
     0 <= i < charsetLength -> 0 <= j < charsetLength ->
     char_at (CHARSET CONSTANTS) i = char_at (CHARSET CONSTANTS) j -> i = j) /\
  (forall i : Z,
     i < 0 \/ charsetLength <= i ->
     char_at (CHARSET CONSTANTS) i = "undefined"%string).
Proof.
  split; [reflexivity |]. split; [exact charset_NoDup |].
  split; [vm_compute; reflexivity |].
  split; [exact char_at_injective |].
  intros i Hi. unfold char_at.
  destruct (Z.ltb_spec i 0); [reflexivity |].
  destruct Hi as [Hi | Hi]; [lia |].
  rewrite get_nth_error.
  replace (List.nth_error _ _) with (@None ascii); [reflexivity |].
  symmetry. apply List.nth_error_None.
  rewrite chars_length. unfold charsetLength in Hi. lia.
Qed.

Lemma charset_characters_witness :
  char_at (CHARSET CONSTANTS) 0 = "a"%string /\
  char_at (CHARSET CONSTANTS) 61 = "9"%string /\
  char_at (CHARSET CONSTANTS) 62 = "undefined"%string /\
  (char_at (CHARSET CONSTANTS) 10 = char_at (CHARSET CONSTANTS) 10 -> 10 = 10).
Proof.
  destruct charset_characters as (_ & _ & _ & Hinj & Hout).
  split; [reflexivity |]. split; [reflexivity |].
  split; [apply Hout; right; vm_compute; discriminate |].
  apply Hinj; vm_compute; split; (discriminate || reflexivity).
Defined.

(** ** Entropy a sample costs *)

Section Cost.


End Cost.


